(** * BarAppBackend: the request handlers of [src/backend/server.js]

    The server is a layer of Express handlers over one MongoDB collection
    ("cocktails") and a media host.  This development embeds the handlers
    and the methods they call ([getItems], [getItemsByName], [add], [edit],
    [remove]) as functions over an explicit collection state, and proves
    the properties of the request/response contract.

    What the code calls but does not define is handled as follows.
    - [Number(s)] on a query-string text, [JSON.parse], the cursor's
      [skip]/[limit] on arbitrary JavaScript numbers, the full-text match
      of [$text] and the media host's uploader are parameters of the
      section [Server]: every theorem holds for all of them.
    - The collection is a list of documents with the documented behaviour
      of [find] with [$in], [insertOne], [updateOne] with [$set] and
      [deleteOne].  Field names are attributes of the document itself; the
      dotted-path and operator notations of the query language are outside
      the model, and the statements that speak about the value of a named
      field are made for attribute names ([attribute_name]).  [updateOne]
      fails on the names that [$set] refuses: a name that is not an update
      path ([refused_path]) always, and a name that cannot be set on a
      document ([refused_on_document]) when a document is matched.
    - Objects are lists of properties; an assignment [o[k] = v] with the
      key [__proto__] goes to the prototype setter and adds no property
      ([assign]).
    - The image end points take the media host's operations as
      parameters too, and [shutdown] takes the way the closes it awaits
      settle.
    - Console output is modelled for [shutdown] only. *)

From Stdlib Require Import List String Ascii Bool NArith ZArith QArith.
Import ListNotations.
Local Close Scope Q_scope.
Local Open Scope string_scope.

(* ================================================================== *)
(** * JavaScript numbers *)

(** A JavaScript number: the finite doubles are rationals, and the code
    only compares numbers, takes minima and tests truthiness, none of
    which rounds. *)
Inductive number : Type :=
| NaN
| NegInfinity
| Infinity
| Num (q : Q).

Definition num_of_nat (n : nat) : number := Num (inject_Z (Z.of_nat n)).

(** Truthiness of a number: [0] and [NaN] are falsy. *)
Definition number_truthy (x : number) : bool :=
  match x with
  | NaN => false
  | Num q => negb (Qeq_bool q 0)
  | _ => true
  end.

(** [x || d] on numbers. *)
Definition number_or (x d : number) : number :=
  if number_truthy x then x else d.

(** [a < b]. *)
Definition number_lt (a b : number) : bool :=
  match a, b with
  | NaN, _ | _, NaN => false
  | _, NegInfinity => false
  | NegInfinity, _ => true
  | Infinity, _ => false
  | Num _, Infinity => true
  | Num p, Num q => negb (Qle_bool q p)
  end.

(** [Math.min(a, b)]. *)
Definition Math_min (a b : number) : number :=
  match a, b with
  | NaN, _ | _, NaN => NaN
  | NegInfinity, _ | _, NegInfinity => NegInfinity
  | Infinity, y => y
  | x, Infinity => x
  | Num p, Num q => if Qle_bool p q then Num p else Num q
  end.

(* ================================================================== *)
(** * JSON values and objects *)

(** The values [JSON.parse] and the body parser produce.  A number is
    carried as the text [String(n)] gives for it: the code never computes
    with the numbers of a payload, it converts them to text and stores
    them, and two JSON numbers are equal exactly when they print alike. *)
#[local] Unset Elimination Schemes.
Inductive Value : Type :=
| VNull
| VBool (b : bool)
| VNum (repr : string)
| VStr (s : string)
| VArr (elems : list Value)
| VObj (fields : list (string * Value)).
#[local] Set Elimination Schemes.

(** An object: its own properties in enumeration order. *)
Definition object (A : Type) : Type := list (string * A).
Definition props : Type := object Value.

Section Objects.
Context {A : Type}.

(** [o[k]]; [None] is [undefined]. *)
Fixpoint get (k : string) (o : object A) : option A :=
  match o with
  | [] => None
  | (k', v) :: o' => if String.eqb k' k then Some v else get k o'
  end.

(** [o[k] = v]: an existing property keeps its place. *)
Fixpoint set (k : string) (v : A) (o : object A) : object A :=
  match o with
  | [] => [(k, v)]
  | (k', v') :: o' =>
      if String.eqb k' k then (k, v) :: o' else (k', v') :: set k v o'
  end.

(** [delete o[k]]. *)
Definition del (k : string) (o : object A) : object A :=
  filter (fun p => negb (String.eqb (fst p) k)) o.

(** [Object.keys(o)]. *)
Definition keys (o : object A) : list string := map fst o.

(** [o[k] = v] on a plain object, for a value [v] that is itself an
    object: the key [__proto__] runs the setter of [Object.prototype],
    which makes [v] the prototype of [o] and gives [o] no property of
    its own. *)
Definition assign (k : string) (v : A) (o : object A) : object A :=
  if String.eqb k "__proto__" then o else set k v o.
End Objects.

Fixpoint Value_eqb (a b : Value) : bool :=
  match a, b with
  | VNull, VNull => true
  | VBool x, VBool y => Bool.eqb x y
  | VNum x, VNum y => String.eqb x y
  | VStr x, VStr y => String.eqb x y
  | VArr xs, VArr ys =>
      (fix elems_eqb (xs ys : list Value) {struct xs} : bool :=
         match xs, ys with
         | [], [] => true
         | x :: xs', y :: ys' => Value_eqb x y && elems_eqb xs' ys'
         | _, _ => false
         end) xs ys
  | VObj ps, VObj qs =>
      (fix fields_eqb (ps qs : list (string * Value)) {struct ps} : bool :=
         match ps, qs with
         | [], [] => true
         | (k, x) :: ps', (l, y) :: qs' =>
             String.eqb k l && Value_eqb x y && fields_eqb ps' qs'
         | _, _ => false
         end) ps qs
  | _, _ => false
  end.

(** Truthiness of a value that may be [undefined]. *)
Definition truthy (v : option Value) : bool :=
  match v with
  | None | Some VNull => false
  | Some (VBool b) => b
  | Some (VNum r) => negb (String.eqb r "0")
  | Some (VStr s) => negb (String.eqb s "")
  | Some (VArr _) | Some (VObj _) => true
  end.

(** [String(v)] and the template literal [`${v}`]. *)
Fixpoint ToString (v : Value) : string :=
  match v with
  | VNull => "null"
  | VBool true => "true"
  | VBool false => "false"
  | VNum r => r
  | VStr s => s
  | VArr l =>
      String.concat ","
        (map (fun e => match e with VNull => "" | _ => ToString e end) l)
  | VObj _ => "[object Object]"
  end.

Definition String_of (v : option Value) : string :=
  match v with
  | None => "undefined"
  | Some x => ToString x
  end.

(** [v.name] for a property name that no prototype defines: reading a
    property of [null] throws, a primitive or an array has none. *)
Definition property (name : string) (v : Value) : option (option Value) :=
  match v with
  | VNull => None
  | VObj o => Some (get name o)
  | _ => Some None
  end.

(** [Object.values(v)]; [None] is the TypeError on [null]. *)
Definition Object_values (v : Value) : option (list Value) :=
  match v with
  | VNull => None
  | VBool _ | VNum _ => Some []
  | VStr s => Some (map (fun c => VStr (String c EmptyString)) (list_ascii_of_string s))
  | VArr l => Some l
  | VObj o => Some (map snd o)
  end.

(* ================================================================== *)
(** * ObjectId *)

Module ObjectId.

(** An ObjectId is twelve bytes; it is carried as the number they
    spell. *)
Definition t : Type := N.

Definition hex_digit (c : ascii) : option N :=
  let n := N_of_ascii c in
  if ((48 <=? n) && (n <=? 57))%N then Some (n - 48)%N
  else if ((97 <=? n) && (n <=? 102))%N then Some (n - 87)%N
  else if ((65 <=? n) && (n <=? 70))%N then Some (n - 55)%N
  else None.

Fixpoint hex_value (acc : N) (s : string) : option N :=
  match s with
  | EmptyString => Some acc
  | String c s' =>
      match hex_digit c with
      | Some d => hex_value (16 * acc + d)%N s'
      | None => None
      end
  end.

(** [new ObjectId(s)] on a string: 24 hexadecimal characters (as the
    bson library has it from its version 6 on); [None] when it
    throws. *)
Definition new (s : string) : option t :=
  if Nat.eqb (String.length s) 24 then hex_value 0%N s else None.

(** [ObjectId.isValid(s)] on a string. *)
Definition isValid (s : string) : bool :=
  match new s with Some _ => true | None => false end.

End ObjectId.

(* ================================================================== *)
(** * Errors and the monad of the methods *)

Inductive Err : Type :=
| SyntaxError (msg : string)
| TypeError (msg : string)
| Error (msg : string)
| BSONError (msg : string)
| MongoError (msg : string).

(** [err.message]. *)
Definition message (e : Err) : string :=
  match e with
  | SyntaxError m | TypeError m | Error m | BSONError m | MongoError m => m
  end.

Inductive result (A : Type) : Type :=
| Ok (a : A)
| Throw (e : Err).
Arguments Ok {A} a.
Arguments Throw {A} e.

(* ================================================================== *)
(** * The collection *)

(** The [_id] of a stored document: an ObjectId, or the value a client
    put in the payload it had inserted. *)
Inductive Id : Type :=
| IdOid (o : ObjectId.t)
| IdVal (v : Value).

Definition Id_eqb (a b : Id) : bool :=
  match a, b with
  | IdOid x, IdOid y => N.eqb x y
  | IdVal x, IdVal y => Value_eqb x y
  | _, _ => false
  end.

(** A stored document: its [_id] and its other fields. *)
Record Doc : Type := { _id : Id; attrs : props }.

(** The calls the code makes on the collection. *)
Inductive Op : Type :=
| Find (filter : object (option Value)) (skip limit : number)
| FindText (search : string) (skip limit : number)
| InsertOne (doc : props)
| UpdateOne (id : ObjectId.t) (upd : props)
| DeleteOne (id : ObjectId.t).

(** The collection: its documents, the next primary key the driver
    generates, and the calls made so far (latest first). *)
Record Collection : Type :=
  { docs : list Doc; next_pk : N; oplog : list Op }.

Definition called (op : Op) (c : Collection) : Collection :=
  {| docs := docs c; next_pk := next_pk c; oplog := op :: oplog c |}.

Definition with_docs (ds : list Doc) (c : Collection) : Collection :=
  {| docs := ds; next_pk := next_pk c; oplog := oplog c |}.

(** State and exceptions. *)
Definition M (A : Type) : Type := Collection -> Collection * result A.

Definition ret {A} (a : A) : M A := fun c => (c, Ok a).
Definition throw {A} (e : Err) : M A := fun c => (c, Throw e).
Definition bind {A B} (m : M A) (k : A -> M B) : M B :=
  fun c =>
    match m c with
    | (c', Ok a) => k a c'
    | (c', Throw e) => (c', Throw e)
    end.
Definition lift {A} (r : result A) : M A := fun c => (c, r).

Notation "x <- m ;; k" := (bind m (fun x => k))
  (at level 61, m at next level, right associativity).

(** A name the query language reads as an attribute of the document:
    no leading dollar (an operator) and no dot (a path). *)
Definition attribute_name (k : string) : bool :=
  negb (String.prefix "$" k) &&
  match String.index 0 "." k with None => true | Some _ => false end.

Definition mem (v : Value) (vals : list Value) : bool :=
  existsb (Value_eqb v) vals.

(** [{name: {$in: vals}}] on the value of the field: the value is one of
    [vals], or it is an array with an element among [vals]; a missing
    field is matched as [null]. *)
Definition in_match (v : option Value) (vals : list Value) : bool :=
  match v with
  | None => mem VNull vals
  | Some (VArr l) => mem (VArr l) vals || existsb (fun e => mem e vals) l
  | Some x => mem x vals
  end.

(** [{name: {$in: vals}}] on a document; an [_id] that is an ObjectId
    equals no JSON value. *)
Definition field_in_match (d : Doc) (name : string) (vals : list Value) : bool :=
  if String.eqb name "_id" then
    match _id d with
    | IdOid _ => false
    | IdVal v => in_match (Some v) vals
    end
  else in_match (get name (attrs d)) vals.

(** The server parses the whole filter first: [$in] needs an array. *)
Fixpoint in_conditions (q : object (option Value)) : option (object (list Value)) :=
  match q with
  | [] => Some []
  | (name, Some (VArr vals)) :: q' =>
      match in_conditions q' with
      | Some cs => Some ((name, vals) :: cs)
      | None => None
      end
  | _ :: _ => None
  end.

(** A filter with several entries is their conjunction. *)
Definition matches (cs : object (list Value)) (d : Doc) : bool :=
  forallb (fun c => field_in_match d (fst c) (snd c)) cs.

(** Which values the server stores as an [_id]: no array, and no
    embedded document with a field name that starts with a dollar. *)
Definition storable_id (i : Id) : bool :=
  match i with
  | IdVal (VArr _) => false
  | IdVal (VObj o) => forallb (fun k => negb (String.prefix "$" k)) (keys o)
  | _ => true
  end.

Record InsertOneResult : Type := { acknowledged : bool; insertedId : Id }.
Record DeleteResult : Type := { deletedCount : nat }.
Record UpdateResult : Type := { matchedCount : nat }.

(** [collection.insertOne(doc)]: the driver generates the [_id] of a
    document that has none ([doc._id == null]); the [_id] index is
    unique. *)
Definition insertOne (data : props) : M InsertOneResult :=
  fun c =>
    let c1 := called (InsertOne data) c in
    let '(id, pk) :=
      match get "_id" data with
      | None | Some VNull => (IdOid (next_pk c), N.succ (next_pk c))
      | Some v => (IdVal v, next_pk c)
      end in
    let c2 := {| docs := docs c1; next_pk := pk; oplog := oplog c1 |} in
    if negb (storable_id id) then
      (c2, Throw (MongoError "The '_id' value cannot be of this type"))
    else if existsb (Id_eqb id) (map _id (docs c)) then
      (c2, Throw (MongoError "E11000 duplicate key error"))
    else
      (with_docs (docs c ++ [{| _id := id; attrs := del "_id" data |}]) c2,
       Ok {| acknowledged := true; insertedId := id |}).

(** [$set]: each field of the update is assigned, in order. *)
Definition apply_set (upd : props) (a : props) : props :=
  fold_left (fun a p => set (fst p) (snd p) a) upd a.

Fixpoint update_first (id : Id) (upd : props) (ds : list Doc) : list Doc :=
  match ds with
  | [] => []
  | d :: ds' =>
      if Id_eqb id (_id d)
      then {| _id := _id d; attrs := apply_set upd (attrs d) |} :: ds'
      else d :: update_first id upd ds'
  end.

(** The parts of an update path, between its dots. *)
Fixpoint path_parts (s : string) : list string :=
  match s with
  | EmptyString => [EmptyString]
  | String ch s' =>
      if Ascii.eqb ch "."
      then EmptyString :: path_parts s'
      else
        match path_parts s' with
        | p :: ps => String ch p :: ps
        | [] => [String ch EmptyString]
        end
  end.

Definition first_part (k : string) : string := hd EmptyString (path_parts k).

Fixpoint ends_with (ch : ascii) (s : string) : bool :=
  match s with
  | EmptyString => false
  | String a EmptyString => Ascii.eqb a ch
  | String _ s' => ends_with ch s'
  end.

(** The positional operators [$], [$[]] and [$[id]]. *)
Definition positional (p : string) : bool :=
  String.eqb p "$" || (String.prefix "$[" p && ends_with "]" p).

(** A path that [$set] refuses when it reads the update, whatever the
    documents are: one of its parts is empty (the empty name is such a
    path), or it starts with a positional operator. *)
Definition refused_path (k : string) : bool :=
  existsb (String.eqb "") (path_parts k) || positional (first_part k).

(** A path that [$set] refuses on the document it is applied to: it
    starts with a dollar, or it is [_id] or leads into it. *)
Definition refused_on_document (k : string) : bool :=
  String.prefix "$" (first_part k) || String.eqb (first_part k) "_id".

(** [collection.updateOne({_id: id}, {$set: upd})]: the update is read
    first, and refused for a path that is not one; then the first
    document with that [_id], if any, is updated, unless a path of the
    update cannot be set on a document; an empty [$set] changes nothing.
    A path with dots that the store takes stands here for one field of
    that name (see the head of the file). *)
Definition updateOne (id : ObjectId.t) (upd : props) : M UpdateResult :=
  fun c =>
    let c1 := called (UpdateOne id upd) c in
    if existsb refused_path (keys upd) then
      (c1, Throw (MongoError "The update path contains an empty field name"))
    else if existsb (Id_eqb (IdOid id)) (map _id (docs c)) then
      if existsb refused_on_document (keys upd) then
        (c1, Throw (MongoError "The field is not valid for storage or is immutable"))
      else
        (with_docs (update_first (IdOid id) upd (docs c)) c1,
         Ok {| matchedCount := 1 |})
    else (c1, Ok {| matchedCount := 0 |}).

Fixpoint remove_first (id : Id) (ds : list Doc) : list Doc :=
  match ds with
  | [] => []
  | d :: ds' => if Id_eqb id (_id d) then ds' else d :: remove_first id ds'
  end.

(** [collection.deleteOne({_id: id})]. *)
Definition deleteOne (id : ObjectId.t) : M DeleteResult :=
  fun c =>
    let c1 := called (DeleteOne id) c in
    if existsb (Id_eqb (IdOid id)) (map _id (docs c)) then
      (with_docs (remove_first (IdOid id) (docs c)) c1,
       Ok {| deletedCount := 1 |})
    else (c1, Ok {| deletedCount := 0 |}).

(* ================================================================== *)
(** * The server *)

Record Page : Type := { items : list Doc; isEndOfCollection : bool }.

(** The file multer puts in [req.file]. *)
Record File : Type := { buffer : string }.

(** A request: the query-string parameters as texts, the parsed body
    (an object, when there is one) and the uploaded file. *)
Record Request : Type :=
  { query : object string; body : option props; file : option File }.

Inductive Body : Type :=
| BPage (p : Page)
| BError (error : string)
| BFailure (error : string) (msg : string)
| BInserted (r : InsertOneResult)
| BDeleted (r : DeleteResult)
| BMessage (msg : string)
| BImage (url : string) (public_id : string).

Record Response : Type := { status : nat; json : Body }.

(** What the media host returns for an upload. *)
Record UploadResult : Type := { secure_url : string; public_id : string }.

Record UploadOptions : Type :=
  { resource_type : string; folder : string }.

Section Server.

(** [Number(s)] on a text of the query string. *)
Variable Number_of_text : string -> number.

(** [JSON.parse]; [None] is its SyntaxError. *)
Variable JSON_parse : string -> option Value.

(** [.skip(n).limit(m).toArray()] on the documents a filter matched,
    in their order; [None] is a failure of the cursor. *)
Variable cursor_window : number -> number -> list Doc -> option (list Doc).

(** The documents the text index matches with a search string; [None]
    is a failure of the query. *)
Variable text_search : string -> list Doc -> option (list Doc).

(** The media host, and what ending an upload stream with a buffer
    does to it. *)
Variable Media : Type.
Variable upload_end :
  UploadOptions -> string -> Media -> Media * result UploadResult.

(** [Number(v)] for a parameter that may be missing. *)
Definition Number (v : option string) : number :=
  match v with
  | None => NaN
  | Some s => Number_of_text s
  end.

(** [collection.find(filter).skip(skip).limit(limit).toArray()]. *)
Definition find (filter : object (option Value)) (skip limit : number)
  : M (list Doc) :=
  fun c =>
    let c1 := called (Find filter skip limit) c in
    match in_conditions filter with
    | None => (c1, Throw (MongoError "$in needs an array"))
    | Some cs =>
        match cursor_window skip limit (List.filter (matches cs) (docs c)) with
        | Some r => (c1, Ok r)
        | None => (c1, Throw (MongoError "cursor"))
        end
    end.

(** [collection.find({$text: {$search: search}})] with the same
    cursor. *)
Definition find_text (search : string) (skip limit : number)
  : M (list Doc) :=
  fun c =>
    let c1 := called (FindText search skip limit) c in
    match text_search search (docs c) with
    | None => (c1, Throw (MongoError "text search"))
    | Some ds =>
        match cursor_window skip limit ds with
        | Some r => (c1, Ok r)
        | None => (c1, Throw (MongoError "cursor"))
        end
    end.

(** ** The methods *)

(** The body of the [forEach] of [getItems]:
    [preparedFilters[filter.filterName] = { $in: filter.filterValues }]. *)
Fixpoint prepareFilters (fs : list Value) (preparedFilters : object (option Value))
  : result (object (option Value)) :=
  match fs with
  | [] => Ok preparedFilters
  | filter :: fs' =>
      match property "filterName" filter, property "filterValues" filter with
      | Some filterName, Some filterValues =>
          prepareFilters fs' (assign (String_of filterName) filterValues preparedFilters)
      | _, _ => Throw (TypeError "Cannot read properties of null")
      end
  end.

Definition parseFilters (filters : option string)
  : result (object (option Value)) :=
  match filters with
  | None => Ok []
  | Some text =>
      if String.eqb text "" then Ok []
      else
        match JSON_parse text with
        | None => Throw (SyntaxError "Unexpected token")
        | Some filtersObject =>
            match Object_values filtersObject with
            | None =>
                Throw (TypeError "Cannot convert undefined or null to object")
            | Some fs => prepareFilters fs []
            end
        end
  end.

(** The default value of the parameter [limit]. *)
Definition limit_or_default (limit : option number) : number :=
  match limit with
  | None => Num 10
  | Some l => l
  end.

Definition getItems (pagination : number) (limit : option number)
    (filters : option string) : M Page :=
  let limit := limit_or_default limit in
  preparedFilters <- lift (parseFilters filters) ;;
  items <- find preparedFilters pagination limit ;;
  ret {| items := items;
         isEndOfCollection := number_lt (num_of_nat (List.length items)) limit |}.

Definition getItemsByName (pagination : number) (limit : option number)
    (search : string) : M Page :=
  let limit := limit_or_default limit in
  items <- find_text search pagination limit ;;
  ret {| items := items;
         isEndOfCollection := number_lt (num_of_nat (List.length items)) limit |}.

Definition add (data : props) : M InsertOneResult :=
  insertedItem <- insertOne data ;;
  ret insertedItem.

(** [new ObjectId(s)], which throws on a string that is not valid. *)
Definition new_ObjectId (s : string) : M ObjectId.t :=
  match ObjectId.new s with
  | Some oid => ret oid
  | None => throw (BSONError "input must be a 24 character hex string")
  end.

Definition edit (data : props) : M unit :=
  if negb (ObjectId.isValid (String_of (get "_id" data))) then
    throw (Error "Invalid id")
  else
    let preparedData := del "_id" data in
    oid <- new_ObjectId (String_of (get "_id" data)) ;;
    _ <- updateOne oid preparedData ;;
    ret tt.

Definition remove (data : props) : M DeleteResult :=
  if negb (ObjectId.isValid (String_of (get "id" data))) then
    throw (Error "Invalid id")
  else
    oid <- new_ObjectId (String_of (get "id" data)) ;;
    deletedItem <- deleteOne oid ;;
    ret deletedItem.

(** ** The end points *)

Definition respond (code : nat) (b : Body) : Response :=
  {| status := code; json := b |}.

(** [GET /api/get-items] *)
Definition api_get_items (req : Request) (c : Collection)
  : Collection * Response :=
  let pagination := number_or (Number (get "pagination" (query req))) (Num 0) in
  let limit :=
    Math_min (number_or (Number (get "limit" (query req))) (Num 10)) (Num 100) in
  let filters := get "filters" (query req) in
  match getItems pagination (Some limit) filters c with
  | (c', Ok response) => (c', respond 200 (BPage response))
  | (c', Throw _) => (c', respond 500 (BError "Server error"))
  end.

(** [GET /api/search] *)
Definition api_search (req : Request) (c : Collection)
  : Collection * Response :=
  let pagination := number_or (Number (get "pagination" (query req))) (Num 0) in
  let limit :=
    Math_min (number_or (Number (get "limit" (query req))) (Num 10)) (Num 20) in
  let search :=
    match get "search" (query req) with
    | Some s => s
    | None => ""
    end in
  if String.eqb search "" then
    (c, respond 400 (BError "Missing search parameter"))
  else
    match getItemsByName pagination (Some limit) search c with
    | (c', Ok response) => (c', respond 200 (BPage response))
    | (c', Throw _) => (c', respond 500 (BError "Server error"))
    end.

(** [POST /api/add] *)
Definition api_add (req : Request) (c : Collection)
  : Collection * Response :=
  match body req with
  | None => (c, respond 400 (BError "Missing body"))
  | Some data =>
      if Nat.eqb (List.length (keys data)) 0 then
        (c, respond 400 (BError "Missing body"))
      else
        match add data c with
        | (c', Ok response) => (c', respond 201 (BInserted response))
        | (c', Throw _) => (c', respond 500 (BError "Server error"))
        end
  end.

(** [PUT /api/edit] *)
Definition api_edit (req : Request) (c : Collection)
  : Collection * Response :=
  match body req with
  | None => (c, respond 400 (BError "Missing id in body"))
  | Some data =>
      if negb (truthy (get "_id" data)) then
        (c, respond 400 (BError "Missing id in body"))
      else
        match edit data c with
        | (c', Ok _) => (c', respond 200 (BMessage "Item updated successfully"))
        | (c', Throw _) => (c', respond 500 (BError "Server error"))
        end
  end.

(** [DELETE /api/delete] *)
Definition api_delete (req : Request) (c : Collection)
  : Collection * Response :=
  match body req with
  | None => (c, respond 400 (BError "Missing id in body"))
  | Some data =>
      if negb (truthy (get "id" data)) then
        (c, respond 400 (BError "Missing id in body"))
      else
        match remove data c with
        | (c', Ok response) => (c', respond 200 (BDeleted response))
        | (c', Throw _) => (c', respond 500 (BError "Internal server error"))
        end
  end.

(** [POST /api/upload-image]: [upload_stream(options, callback)] opens
    the stream, then the argument of [.end(req.file.buffer)] is
    evaluated, which throws when there is no file; the stream is ended
    only after that. *)
Definition api_upload_image (req : Request) (m : Media)
  : Media * Response :=
  let options := {| resource_type := "image"; folder := "drinks" |} in
  match file req with
  | None =>
      let err := TypeError "Cannot read properties of undefined (reading 'buffer')" in
      (m, respond 500 (BFailure "Image upload failed" (message err)))
  | Some f =>
      match upload_end options (buffer f) m with
      | (m', Ok result) =>
          (m', respond 200 (BImage (secure_url result) (public_id result)))
      | (m', Throw err) =>
          (m', respond 500 (BFailure "Image upload failed" (message err)))
      end
  end.

End Server.

(* ================================================================== *)
(** * Notions the statements use *)

(** [n < x] for a count [n] and a JavaScript number [x]. *)
Definition fewer_than (n : nat) (x : number) : Prop :=
  match x with
  | Num q => (inject_Z (Z.of_nat n) < q)%Q
  | Infinity => True
  | NaN | NegInfinity => False
  end.

(** [x <= cap] for an integer [cap]. *)
Definition at_most (x : number) (cap : Z) : Prop :=
  match x with
  | Num q => (q <= inject_Z cap)%Q
  | NegInfinity => True
  | NaN | Infinity => False
  end.

(** The value of a field is permitted by the set [vals]: it is in the
    set, or it is an array with an element in the set; a missing field
    counts as [null]. *)
Inductive permitted (vals : list Value) : option Value -> Prop :=
| permitted_value : forall v, In v vals -> permitted vals (Some v)
| permitted_element : forall l e,
    In e l -> In e vals -> permitted vals (Some (VArr l))
| permitted_missing : In VNull vals -> permitted vals None.

(** The document satisfies the membership predicate of a filter. *)
Definition satisfies (d : Doc) (name : string) (vals : list Value) : Prop :=
  if String.eqb name "_id"
  then exists v, _id d = IdVal v /\ permitted vals (Some v)
  else permitted vals (get name (attrs d)).

(** The JSON value [f] is the filter (name, values). *)
Definition describes (f : Value) (p : string * list Value) : Prop :=
  property "filterName" f = Some (Some (VStr (fst p))) /\
  property "filterValues" f = Some (Some (VArr (snd p))).

(** The values of the last filter of a list with a given name. *)
Definition last_named (name : string) (fs : object (list Value))
  : option (list Value) :=
  get name (rev fs).

(** The filter object is made of [$in] conditions on arrays. *)
Definition in_condition (p : string * option Value) : Prop :=
  exists vals, snd p = Some (VArr vals).

(** The invariants of the collection: the [_id] index is unique, and the
    ObjectIds in it are older than the next generated key. *)
Definition unique_ids (c : Collection) : Prop := NoDup (map _id (docs c)).

Definition pk_fresh (c : Collection) : Prop :=
  forall d o, In d (docs c) -> _id d = IdOid o -> (o < next_pk c)%N.

Definition consistent (c : Collection) : Prop := unique_ids c /\ pk_fresh c.

(** The payload has no [_id] of its own. *)
Definition no_own_id (data : props) : Prop :=
  get "_id" data = None \/ get "_id" data = Some VNull.

(* ================================================================== *)
(** * Induction on values *)

Section ValueInduction.
Variable P : Value -> Prop.
Hypothesis P_null : P VNull.
Hypothesis P_bool : forall b, P (VBool b).
Hypothesis P_num : forall r, P (VNum r).
Hypothesis P_str : forall s, P (VStr s).
Hypothesis P_arr : forall l, Forall P l -> P (VArr l).
Hypothesis P_obj : forall o, Forall (fun p => P (snd p)) o -> P (VObj o).

Fixpoint Value_nested_ind (v : Value) : P v :=
  match v with
  | VNull => P_null
  | VBool b => P_bool b
  | VNum r => P_num r
  | VStr s => P_str s
  | VArr l =>
      P_arr l
        ((fix elems (l : list Value) : Forall P l :=
            match l with
            | [] => Forall_nil P
            | x :: l' => Forall_cons x (Value_nested_ind x) (elems l')
            end) l)
  | VObj o =>
      P_obj o
        ((fix fields (o : list (string * Value)) : Forall (fun p => P (snd p)) o :=
            match o with
            | [] => Forall_nil _
            | p :: o' => Forall_cons p (Value_nested_ind (snd p)) (fields o')
            end) o)
  end.
End ValueInduction.

(* ================================================================== *)
(** * A concrete environment and sample data *)

Module Sample.

Fixpoint digits_value (acc : Z) (s : string) : option Z :=
  match s with
  | EmptyString => Some acc
  | String ch s' =>
      let n := Z.of_N (N_of_ascii ch) in
      if ((48 <=? n) && (n <=? 57))%Z
      then digits_value (10 * acc + (n - 48))%Z s'
      else None
  end.

(** [Number(s)] on the texts made of decimal digits, [NaN] on the
    others. *)
Definition Number_of_text (s : string) : number :=
  match digits_value 0 s with
  | Some z => Num (inject_Z z)
  | None => NaN
  end.

Definition natural (x : number) : option nat :=
  match x with
  | Num q =>
      if (Pos.eqb (Qden q) 1 && (0 <=? Qnum q)%Z)%bool
      then Some (Z.to_nat (Qnum q))
      else None
  | _ => None
  end.

(** A cursor that serves natural numbers: [limit] documents after the
    first [skip]. *)
Definition cursor_window (skip limit : number) (ds : list Doc)
  : option (list Doc) :=
  match natural skip, natural limit with
  | Some s, Some l => Some (firstn l (skipn s ds))
  | _, _ => None
  end.

(** A text index on the field [name]: the documents with that name. *)
Definition text_search (search : string) (ds : list Doc)
  : option (list Doc) :=
  Some (List.filter
          (fun d => match get "name" (attrs d) with
                    | Some (VStr n) => String.eqb n search
                    | _ => false
                    end) ds).

(** A media host that keeps the buffers it was sent. *)
Definition Media : Type := list string.
Definition upload_end (o : UploadOptions) (buf : string) (m : Media)
  : Media * result UploadResult :=
  (buf :: m,
   Ok {| secure_url := "https://media.example/drinks/1";
         public_id := "drinks/1" |}).

Definition filter_of (name : string) (vals : list Value) : Value :=
  VObj [("filterName", VStr name); ("filterValues", VArr vals)].

(** A text between double quotes. *)
Definition quoted (s : string) : string :=
  let dq := String (ascii_of_nat 34) EmptyString in
  dq ++ s ++ dq.

(** The JSON text of one filter. *)
Definition filter_text (name value : string) : string :=
  "{" ++ quoted "filterName" ++ ":" ++ quoted name ++ ","
      ++ quoted "filterValues" ++ ":[" ++ quoted value ++ "]}".

Definition one_filter_text : string :=
  "[" ++ filter_text "taste" "sour" ++ "]".
Definition two_filters_text : string :=
  "[" ++ filter_text "taste" "sweet" ++ "," ++ filter_text "taste" "sour" ++ "]".

(** A parser that knows the two texts above. *)
Definition JSON_parse (s : string) : option Value :=
  if String.eqb s one_filter_text then
    Some (VArr [filter_of "taste" [VStr "sour"]])
  else if String.eqb s two_filters_text then
    Some (VArr [filter_of "taste" [VStr "sweet"];
                filter_of "taste" [VStr "sour"]])
  else None.

Definition empty : Collection := {| docs := []; next_pk := 0%N; oplog := [] |}.

Definition margarita : Doc :=
  {| _id := IdOid 0%N;
     attrs := [("name", VStr "Margarita"); ("taste", VStr "sour")] |}.
Definition mojito : Doc :=
  {| _id := IdOid 1%N;
     attrs := [("name", VStr "Mojito"); ("taste", VStr "sweet")] |}.

Definition bar : Collection :=
  {| docs := [margarita; mojito]; next_pk := 2%N; oplog := [] |}.

(** The 24 hexadecimal characters of the ObjectId 1. *)
Definition mojito_id : string := "000000000000000000000001".

Definition request (q : object string) (b : option props) : Request :=
  {| query := q; body := b; file := None |}.

End Sample.

(* ================================================================== *)
(** * Requests in sequence *)

(** The end points on the collection. *)
Inductive Route : Type :=
| GetItems
| Search
| Add
| Edit
| Delete.

Section Routing.
Variable Number_of_text : string -> number.
Variable JSON_parse : string -> option Value.
Variable cursor_window : number -> number -> list Doc -> option (list Doc).
Variable text_search : string -> list Doc -> option (list Doc).

(** The handler Express runs for a route. *)
Definition serve (r : Route) (req : Request) (c : Collection)
  : Collection * Response :=
  match r with
  | GetItems => api_get_items Number_of_text JSON_parse cursor_window req c
  | Search => api_search Number_of_text cursor_window text_search req c
  | Add => api_add req c
  | Edit => api_edit req c
  | Delete => api_delete req c
  end.

(** The collection after a sequence of requests; each handler makes
    its one call on the collection in a single step. *)
Fixpoint serve_all (calls : list (Route * Request)) (c : Collection)
  : Collection :=
  match calls with
  | [] => c
  | (r, req) :: rest => serve_all rest (fst (serve r req c))
  end.
End Routing.

(** A field name that [$set] takes as an attribute: an attribute name
    that is not empty. *)
Definition settable_name (k : string) : bool :=
  attribute_name k && negb (String.eqb k "").

(** The number of documents with an identifier. *)
Definition count_id (id : Id) (ds : list Doc) : nat :=
  List.length (List.filter (fun d => Id_eqb id (_id d)) ds).

(* ================================================================== *)
(** * The image end points *)

(** The options of the overwriting upload of [POST /api/edit-image]. *)
Record OverwriteOptions : Type :=
  { target_public_id : option Value;
    target_resource_type : string;
    overwrite : bool;
    invalidate : bool }.

(** What the image end points answer: a body of the other end points, or
    the result of the media host passed through. *)
Inductive MediaBody : Type :=
| MBody (b : Body)
| MResult (r : Value).

Record MediaResponse : Type := { media_status : nat; media_json : MediaBody }.

Section Images.
Variable Media : Type.

(** Ending the overwriting upload stream with a buffer. *)
Variable overwrite_end :
  OverwriteOptions -> string -> Media -> Media * result UploadResult.

(** [cloudinary.uploader.destroy(public_id)]. *)
Variable destroy : Value -> Media -> Media * result Value.

(** [POST /api/edit-image]: the options are built first, which reads
    [req.body.public_id] and throws without a body; then the argument
    of [.end(req.file.buffer)] is evaluated, which throws without a
    file; the result of the upload is not used. *)
Definition api_edit_image (req : Request) (m : Media) : Media * Response :=
  match body req with
  | None =>
      let err := TypeError "Cannot read properties of undefined (reading 'public_id')" in
      (m, respond 500 (BFailure "Image upload failed" (message err)))
  | Some data =>
      let options :=
        {| target_public_id := get "public_id" data;
           target_resource_type := "image";
           overwrite := true;
           invalidate := true |} in
      match file req with
      | None =>
          let err := TypeError "Cannot read properties of undefined (reading 'buffer')" in
          (m, respond 500 (BFailure "Image upload failed" (message err)))
      | Some f =>
          match overwrite_end options (buffer f) m with
          | (m', Ok _) => (m', respond 200 (BMessage "Image updated successfully"))
          | (m', Throw err) =>
              (m', respond 500 (BFailure "Image upload failed" (message err)))
          end
      end
  end.

(** [DELETE /api/delete-image]: [const { public_id } = req.body] throws
    without a body. *)
Definition api_delete_image (req : Request) (m : Media)
  : Media * MediaResponse :=
  match body req with
  | None =>
      (m, {| media_status := 500;
             media_json := MBody (BError "Internal server error") |})
  | Some data =>
      match get "public_id" data with
      | Some public_id =>
          if truthy (Some public_id) then
            match destroy public_id m with
            | (m', Ok result) =>
                (m', {| media_status := 200; media_json := MResult result |})
            | (m', Throw _) =>
                (m', {| media_status := 500;
                        media_json := MBody (BError "Internal server error") |})
            end
          else
            (m, {| media_status := 400;
                   media_json := MBody (BError "Missing public_id in body") |})
      | None =>
          (m, {| media_status := 400;
                 media_json := MBody (BError "Missing public_id in body") |})
      end
  end.
End Images.

(* ================================================================== *)
(** * Shutting down *)

(** How an awaited promise settles; it may also never settle. *)
Inductive Settle : Type :=
| Resolves
| Rejects (e : Err)
| Pends.

(** The process when [shutdown] runs: whether [server] is set, what
    [client.isConnected] is ([None] when the driver has no such method,
    else what it returns), and how the two closes settle. *)
Record Process : Type :=
  { server_set : bool;
    isConnected : option bool;
    server_close : Settle;
    client_close : Settle }.

(** What [shutdown] does, in order. *)
Inductive Effect : Type :=
| Console (msg : string)
| CloseServer
| CloseClient
| Exit (code : nat).

(** What the process receives. *)
Inductive Signal : Type :=
| SIGINT
| SIGTERM
| uncaughtException
| unhandledRejection.

(** The two branches of [shutdown] on the client; [finally] is what
    runs after the [try]. *)
Definition close_client (p : Process) (finally : list Effect) : list Effect :=
  match isConnected p with
  | Some true =>
      CloseClient ::
      match client_close p with
      | Resolves => Console "MongoDB connection closed." :: finally
      | Rejects _ => Console "Error during shutdown:" :: finally
      | Pends => []
      end
  | _ =>
      CloseClient ::
      match client_close p with
      | Resolves => finally
      | Rejects _ => Console "Error closing MongoDB client:" :: finally
      | Pends => []
      end
  end.

(** [shutdown(code)]; [None] is the call without an argument. *)
Definition shutdown (code : option nat) (p : Process) : list Effect :=
  let code := match code with Some n => n | None => 0 end in
  let finally := [Exit code] in
  Console "Shutting down..." ::
  if server_set p then
    CloseServer ::
    match server_close p with
    | Resolves => Console "HTTP server closed." :: close_client p finally
    | Rejects _ => Console "Error during shutdown:" :: finally
    | Pends => []
    end
  else close_client p finally.

(** The handlers registered with [process.on]. *)
Definition on (s : Signal) (p : Process) : list Effect :=
  match s with
  | SIGINT | SIGTERM => shutdown (Some 0) p
  | uncaughtException | unhandledRejection =>
      Console (match s with
               | uncaughtException => "Uncaught exception:"
               | _ => "Unhandled rejection:"
               end) :: shutdown (Some 1) p
  end.

(** The number of times the client is closed. *)
Definition client_closes (es : list Effect) : nat :=
  List.length
    (List.filter (fun e => match e with CloseClient => true | _ => false end) es).

(** The skip [s] and the limit [lim] an end point with the cap [cap]
    computes from the numbers [p] and [l] that [Number] gives for the
    parameters [pagination] and [limit]. *)
Definition window_of (p l : number) (cap : Z) (s lim : number) : Prop :=
  (number_truthy p = false -> s = Num 0) /\
  (number_truthy p = true -> s = p) /\
  (number_truthy l = false -> lim = Num 10) /\
  (forall x, l = Num x -> ~ (x == 0)%Q -> (x <= inject_Z cap)%Q -> lim = Num x) /\
  (forall x, l = Num x -> (inject_Z cap < x)%Q -> lim = Num (inject_Z cap)) /\
  (l = Infinity -> lim = Num (inject_Z cap)) /\
  (l = NegInfinity -> lim = NegInfinity).

(** The key and the condition the loop of [getItems] takes from a
    filter that is not [null]. *)
Definition filter_key (f : Value) : string :=
  match property "filterName" f with
  | Some n => String_of n
  | None => "undefined"
  end.



(** A media host for the image end points: it keeps the public ids it
    was asked to overwrite, and forgets the ones it destroys. *)
Module SampleHost.

Definition Media : Type := list string.

Definition overwrite_end (o : OverwriteOptions) (buf : string) (m : Media)
: Media * result UploadResult :=
match target_public_id o with
| Some (VStr id) =>
    (id :: m,
     Ok {| secure_url := "https://media.example/" ++ id; public_id := id |})
| _ => (m, Throw (Error "Missing required parameter - public_id"))
end.

Definition destroy (v : Value) (m : Media) : Media * result Value :=
match v with
| VStr id =>
    if existsb (String.eqb id) m
    then (List.filter (fun x => negb (String.eqb id x)) m,
          Ok (VObj [("result", VStr "ok")]))
    else (m, Ok (VObj [("result", VStr "not found")]))
| _ => (m, Throw (Error "public_id must be a string"))
end.

Definition with_file (b : option props) (buf : string) : Request :=
{| query := []; body := b; file := Some {| buffer := buf |} |}.

End SampleHost.

(** A parser that knows the text of a filter without values and the
    text of a filter on [_id]; a collection with a document stored under
    an identifier of its client. *)
Module SampleFilter.

Definition nameless_text : string :=
"[{" ++ Sample.quoted "filterName" ++ ":" ++ Sample.quoted "taste" ++ "}]".

Definition id_text : string :=
"[" ++ Sample.filter_text "_id" "mine" ++ "]".

Definition JSON_parse (s : string) : option Value :=
if String.eqb s nameless_text
then Some (VArr [VObj [("filterName", VStr "taste")]])
else if String.eqb s id_text
then Some (VArr [Sample.filter_of "_id" [VStr "mine"]])
else None.

Definition daiquiri : Doc :=
{| _id := IdVal (VStr "mine"); attrs := [("name", VStr "Daiquiri")] |}.

Definition bar : Collection :=
{| docs := [Sample.margarita; daiquiri]; next_pk := 1%N; oplog := [] |}.

End SampleFilter.

(** A parser that knows the text of a filter named [__proto__], alone
    and followed by a filter on the taste. *)
Module SampleProto.

Definition alone_text : string :=
"[" ++ Sample.filter_text "__proto__" "sweet" ++ "]".

Definition text : string :=
"[" ++ Sample.filter_text "__proto__" "sweet" ++ ","
    ++ Sample.filter_text "taste" "sour" ++ "]".

Definition JSON_parse (s : string) : option Value :=
if String.eqb s alone_text
then Some (VArr [Sample.filter_of "__proto__" [VStr "sweet"]])
else if String.eqb s text
then Some (VArr [Sample.filter_of "__proto__" [VStr "sweet"];
                 Sample.filter_of "taste" [VStr "sour"]])
else None.

End SampleProto.

(** [Number(s)] on decimal digits with an optional minus sign, and a
    cursor that, like the driver, takes a limit below zero for its
    absolute value. *)
Module SampleSigned.

Definition Number_of_text (s : string) : number :=
match s with
| String "-" rest =>
    match Sample.digits_value 0 rest with
    | Some z => Num (inject_Z (- z))
    | None => NaN
    end
| _ => Sample.Number_of_text s
end.

Definition magnitude (x : number) : option nat :=
match x with
| Num q =>
    if Pos.eqb (Qden q) 1 then Some (Z.abs_nat (Qnum q)) else None
| _ => None
end.

Definition cursor_window (skip limit : number) (ds : list Doc)
: option (list Doc) :=
match Sample.natural skip, magnitude limit with
| Some s, Some l => Some (firstn l (skipn s ds))
| _, _ => None
end.

(** Thirty documents of one name. *)
Definition crowd : Collection :=
{| docs := map (fun n => {| _id := IdOid (N.of_nat n);
                            attrs := [("name", VStr "Mojito")] |})
               (seq 0 30);
   next_pk := 30%N;
   oplog := [] |}.

End SampleSigned.

(** The codes the process exits with, in order. *)
Definition exit_codes (es : list Effect) : list nat :=
  flat_map (fun e => match e with Exit n => [n] | _ => [] end) es.

Definition pends (s : Settle) : bool :=
  match s with Pends => true | _ => false end.

Definition resolves (s : Settle) : bool :=
  match s with Resolves => true | _ => false end.

(** The code a handler of [process.on] passes to [shutdown]. *)
Definition code_of (s : Signal) : nat :=
  match s with
  | SIGINT | SIGTERM => 0
  | uncaughtException | unhandledRejection => 1
  end.

Local Open Scope list_scope.
(* ================================================================== *)
(** * Values and identifiers: equality *)

Lemma Value_eqb_refl : forall a, Value_eqb a a = true.
Proof.
  induction a using Value_nested_ind; simpl;
    auto using Bool.eqb_reflx, String.eqb_refl.
  - induction H as [|x l Hx _ IH]; [reflexivity|]. now rewrite Hx, IH.
  - induction H as [|[k x] o Hx _ IH]; [reflexivity|].
    simpl in Hx. now rewrite String.eqb_refl, Hx, IH.
Qed.

Lemma Value_eqb_sound : forall a b, Value_eqb a b = true -> a = b.
Proof.
  intros a. induction a using Value_nested_ind; intros c; destruct c; simpl;
    try discriminate; intros E.
  - reflexivity.
  - now apply Bool.eqb_prop in E; subst.
  - now apply String.eqb_eq in E; subst.
  - now apply String.eqb_eq in E; subst.
  - f_equal. revert elems E.
    induction H as [|x l Hx _ IH]; intros [|y ys] E; try discriminate; [reflexivity|].
    apply andb_prop in E as [E1 E2].
    f_equal; [now apply Hx | now apply IH].
  - f_equal. revert fields E.
    induction H as [|[k x] o Hx _ IH]; intros [|[k' y] ys] E; try discriminate; [reflexivity|].
    apply andb_prop in E as [E12 E3]. apply andb_prop in E12 as [E1 E2].
    apply String.eqb_eq in E1. simpl in Hx. apply Hx in E2. subst.
    f_equal. now apply IH.
Qed.

Lemma Value_eqb_eq : forall a b, Value_eqb a b = true <-> a = b.
Proof.
  split; [apply Value_eqb_sound | intros ->; apply Value_eqb_refl].
Qed.

Lemma Id_eqb_eq : forall a b, Id_eqb a b = true <-> a = b.
Proof.
  intros [x|x] [y|y]; simpl; split; try discriminate; intros E.
  - now apply N.eqb_eq in E; subst.
  - injection E as ->. apply N.eqb_refl.
  - now apply Value_eqb_eq in E; subst.
  - injection E as ->. apply Value_eqb_refl.
Qed.

Lemma Id_eqb_refl : forall a, Id_eqb a a = true.
Proof. intros a. now apply Id_eqb_eq. Qed.

Lemma Id_eqb_neq : forall a b, Id_eqb a b = false <-> a <> b.
Proof.
  intros a b. split.
  - intros E ->. now rewrite Id_eqb_refl in E.
  - intros N. destruct (Id_eqb a b) eqn:E; [|reflexivity].
    now apply Id_eqb_eq in E.
Qed.

Lemma mem_In : forall v vals, mem v vals = true <-> In v vals.
Proof.
  intros v vals. unfold mem. rewrite existsb_exists. split.
  - intros [x [Hx E]]. apply Value_eqb_eq in E. now subst.
  - intros H. exists v. split; [assumption | apply Value_eqb_refl].
Qed.

(** The boolean match of [$in] is the membership predicate. *)
Lemma in_match_permitted :
  forall v vals, in_match v vals = true <-> permitted vals v.
Proof.
  intros v vals. split.
  - destruct v as [x|]; simpl.
    + destruct x; try (intros H; apply mem_In in H; now constructor).
      intros H. apply orb_prop in H as [H|H].
      * apply mem_In in H. now constructor.
      * apply existsb_exists in H as [e [He Hm]]. apply mem_In in Hm.
        now apply permitted_element with e.
    + intros H. apply mem_In in H. now constructor.
  - intros H. destruct H as [v Hv|l e He Hv|Hn]; simpl.
    + apply mem_In in Hv. destruct v; try assumption.
      now rewrite Hv.
    + apply orb_true_iff. right. apply existsb_exists.
      exists e. split; [assumption | now apply mem_In].
    + now apply mem_In.
Qed.

Lemma field_in_match_satisfies :
  forall d name vals, field_in_match d name vals = true <-> satisfies d name vals.
Proof.
  intros d name vals. unfold field_in_match, satisfies.
  destruct (String.eqb name "_id").
  - destruct (_id d) as [o|v].
    + split; [discriminate | intros [v [E _]]; discriminate].
    + rewrite in_match_permitted. split.
      * intros H. now exists v.
      * intros [w [E H]]. now injection E as ->.
  - apply in_match_permitted.
Qed.

(* ================================================================== *)
(** * Numbers *)

Lemma number_lt_fewer_than :
  forall n x, number_lt (num_of_nat n) x = true <-> fewer_than n x.
Proof.
  intros n [| | |q]; simpl; try (split; [discriminate | contradiction]).
  - split; trivial.
  - rewrite negb_true_iff. split.
    + intros H. apply Qnot_le_lt. intros L.
      apply Qle_bool_iff in L. congruence.
    + intros H. destruct (Qle_bool q _) eqn:E; [|reflexivity].
      apply Qle_bool_iff in E. exfalso. revert E. now apply Qlt_not_le.
Qed.

Lemma number_or_truthy :
  forall x d, number_truthy d = true -> number_truthy (number_or x d) = true.
Proof.
  intros x d Hd. unfold number_or. now destruct (number_truthy x) eqn:E.
Qed.

(** [Math.min(x, cap)] of a number that is not [NaN] is at most the
    cap. *)
Lemma Math_min_at_most :
  forall x cap, number_truthy x = true ->
    at_most (Math_min x (Num (inject_Z cap))) cap.
Proof.
  intros [| | |q] cap H; simpl in *; try discriminate; try exact I.
  - apply Qle_refl.
  - destruct (Qle_bool q (inject_Z cap)) eqn:E; simpl.
    + now apply Qle_bool_iff.
    + apply Qle_refl.
Qed.

(* ================================================================== *)
(** * Objects *)

Section ObjectFacts.
Context {A : Type}.
Implicit Types (o : object A) (k : string) (v : A).

Lemma get_set_same : forall k v o, get k (set k v o) = Some v.
Proof.
  intros k v o. induction o as [|[k' v'] o IH]; simpl.
  - now rewrite String.eqb_refl.
  - destruct (String.eqb k' k) eqn:E; simpl.
    + now rewrite String.eqb_refl.
    + now rewrite E.
Qed.

Lemma get_set_other :
  forall k k' v o, k' <> k -> get k' (set k v o) = get k' o.
Proof.
  intros k k' v o N. induction o as [|[k0 v0] o IH]; simpl.
  - apply String.eqb_neq in N. rewrite String.eqb_sym in N. now rewrite N.
  - destruct (String.eqb k0 k) eqn:E; simpl.
    + apply String.eqb_eq in E. subst k0.
      destruct (String.eqb k k') eqn:E'; [|reflexivity].
      apply String.eqb_eq in E'. now subst.
    + now rewrite IH.
Qed.

Lemma get_del_same : forall k o, get k (del k o) = None.
Proof.
  intros k o. induction o as [|[k' v'] o IH]; simpl; [reflexivity|].
  destruct (String.eqb k' k) eqn:E; simpl; [assumption|].
  now rewrite E.
Qed.

Lemma get_del_other : forall k k' o, k' <> k -> get k' (del k o) = get k' o.
Proof.
  intros k k' o N. induction o as [|[k0 v0] o IH]; simpl; [reflexivity|].
  destruct (String.eqb k0 k) eqn:E; simpl.
  - apply String.eqb_eq in E. subst k0.
    destruct (String.eqb k k') eqn:E'; [|assumption].
    apply String.eqb_eq in E'. now subst.
  - now rewrite IH.
Qed.

Lemma get_None_keys : forall k o, get k o = None <-> ~ In k (keys o).
Proof.
  intros k o. induction o as [|[k' v'] o IH]; simpl.
  - split; [intros _ [] | reflexivity].
  - destruct (String.eqb k' k) eqn:E.
    + apply String.eqb_eq in E. split; [discriminate | intros N; exfalso; auto].
    + apply String.eqb_neq in E. rewrite IH. tauto.
Qed.

Lemma get_app :
  forall k o o',
    get k (o ++ o')%list = match get k o with Some v => Some v | None => get k o' end.
Proof.
  intros k o o'. induction o as [|[k' v'] o IH]; simpl; [reflexivity|].
  now destruct (String.eqb k' k).
Qed.

(** In an object that has each key once, the last binding of a key is
    its only one. *)
Lemma get_rev_NoDup : forall k o, NoDup (keys o) -> get k (rev o) = get k o.
Proof.
  intros k o. induction o as [|[k' v'] o IH]; simpl; intros ND; [reflexivity|].
  inversion ND as [|? ? Hn ND']; subst.
  rewrite get_app, (IH ND'). simpl.
  destruct (String.eqb k' k) eqn:E.
  - apply String.eqb_eq in E. subst k'.
    apply get_None_keys in Hn. now rewrite Hn.
  - now destruct (get k o).
Qed.

Lemma keys_del : forall k o, keys (del k o) = List.filter (fun x => negb (String.eqb x k)) (keys o).
Proof.
  intros k o. induction o as [|[k' v'] o IH]; simpl; [reflexivity|].
  destruct (String.eqb k' k); simpl; now rewrite IH.
Qed.

Lemma NoDup_keys_del : forall k o, NoDup (keys o) -> NoDup (keys (del k o)).
Proof.
  intros k o ND. rewrite keys_del. now apply NoDup_filter.
Qed.
End ObjectFacts.

(** [$set] assigns the fields of the update, the last one of a name
    winning, and leaves the other fields. *)
Lemma get_apply_set :
  forall upd a k,
    get k (apply_set upd a) =
    match get k (rev upd) with Some v => Some v | None => get k a end.
Proof.
  unfold apply_set. induction upd as [|[k' v'] upd IH]; intros a k; simpl.
  - reflexivity.
  - rewrite IH, get_app. destruct (get k (rev upd)); [reflexivity|]. simpl.
    destruct (String.eqb k' k) eqn:E.
    + apply String.eqb_eq in E. subst. apply get_set_same.
    + apply String.eqb_neq in E. apply get_set_other. congruence.
Qed.

(* ================================================================== *)
(** * The end-of-collection flag *)

Section Paging.
Variable JSON_parse : string -> option Value.
Variable cursor_window : number -> number -> list Doc -> option (list Doc).
Variable text_search : string -> list Doc -> option (list Doc).

Lemma getItems_flag :
  forall pagination limit filters c c' page,
    getItems JSON_parse cursor_window pagination limit filters c = (c', Ok page) ->
    isEndOfCollection page =
    number_lt (num_of_nat (List.length (items page))) (limit_or_default limit).
Proof.
  intros pagination limit filters c c' page. unfold getItems, bind, lift, ret.
  destruct (parseFilters JSON_parse filters) as [q|e]; [|discriminate].
  destruct (find cursor_window q pagination (limit_or_default limit) c)
    as [c1 [l|e]]; [|discriminate].
  intros E. now injection E as _ <-.
Qed.

Lemma getItemsByName_flag :
  forall pagination limit search c c' page,
    getItemsByName cursor_window text_search pagination limit search c = (c', Ok page) ->
    isEndOfCollection page =
    number_lt (num_of_nat (List.length (items page))) (limit_or_default limit).
Proof.
  intros pagination limit search c c' page. unfold getItemsByName, bind, ret.
  destruct (find_text cursor_window text_search search pagination
              (limit_or_default limit) c) as [c1 [l|e]]; [|discriminate].
  intros E. now injection E as _ <-.
Qed.
End Paging.

Lemma api_get_items_flag :
  forall Number_of_text JSON_parse cursor_window req c c' page,
    api_get_items Number_of_text JSON_parse cursor_window req c
    = (c', respond 200 (BPage page)) ->
    (isEndOfCollection page = true <->
     fewer_than (List.length (items page))
       (Math_min (number_or (Number Number_of_text (get "limit" (query req))) (Num 10))
                 (Num 100))).
Proof.
  intros Number_of_text JSON_parse cursor_window req c c' page.
  unfold api_get_items.
  match goal with
  | |- context [getItems _ _ ?p ?l ?f c] =>
      destruct (getItems JSON_parse cursor_window p l f c) as [c1 [pg|e]] eqn:E
  end; [|discriminate].
  intros H. injection H as _ <-.
  rewrite (getItems_flag _ _ _ _ _ _ _ _ E). apply number_lt_fewer_than.
Qed.

Lemma api_search_flag :
  forall Number_of_text cursor_window text_search req c c' page,
    api_search Number_of_text cursor_window text_search req c
    = (c', respond 200 (BPage page)) ->
    (isEndOfCollection page = true <->
     fewer_than (List.length (items page))
       (Math_min (number_or (Number Number_of_text (get "limit" (query req))) (Num 10))
                 (Num 20))).
Proof.
  intros Number_of_text cursor_window text_search req c c' page.
  unfold api_search. destruct (String.eqb _ ""); [discriminate|].
  match goal with
  | |- context [getItemsByName _ _ ?p ?l ?s c] =>
      destruct (getItemsByName cursor_window text_search p l s c)
        as [c1 [pg|e]] eqn:E
  end; [|discriminate].
  intros H. injection H as _ <-.
  rewrite (getItemsByName_flag _ _ _ _ _ _ _ _ E). apply number_lt_fewer_than.
Qed.

(** The limit an end point passes on, by what the query asks for. *)
Lemma effective_limit_in_range :
  forall x cap,
    ~ (x == 0)%Q -> (x <= cap)%Q ->
    Math_min (number_or (Num x) (Num 10)) (Num cap) = Num x.
Proof.
  intros x cap H0 Hc. unfold number_or, number_truthy.
  destruct (Qeq_bool x 0) eqn:E; [now apply Qeq_bool_iff in E|].
  cbn [negb Math_min]. apply Qle_bool_iff in Hc. now rewrite Hc.
Qed.

Lemma effective_limit_default :
  forall l cap,
    l = NaN \/ (exists x, l = Num x /\ (x == 0)%Q) -> (10 <= cap)%Q ->
    Math_min (number_or l (Num 10)) (Num cap) = Num 10.
Proof.
  intros l cap [-> | [x [-> H0]]] Hc; unfold number_or, number_truthy.
  - cbn [Math_min]. apply Qle_bool_iff in Hc. now rewrite Hc.
  - apply Qeq_bool_iff in H0. rewrite H0. cbn [negb Math_min].
    apply Qle_bool_iff in Hc. now rewrite Hc.
Qed.

Lemma effective_limit_above :
  forall l cap,
    l = Infinity \/ (exists x, l = Num x /\ (cap < x)%Q) -> (0 < cap)%Q ->
    Math_min (number_or l (Num 10)) (Num cap) = Num cap.
Proof.
  intros l cap [-> | [x [-> Hx]]] Hc; [reflexivity|].
  unfold number_or, number_truthy.
  destruct (Qeq_bool x 0) eqn:E.
  - apply Qeq_bool_iff in E. exfalso. rewrite E in Hx.
    apply (Qlt_irrefl 0). now apply Qlt_trans with cap.
  - cbn [negb Math_min].
    destruct (Qle_bool x cap) eqn:L; [|reflexivity].
    apply Qle_bool_iff in L. exfalso. now apply (Qlt_not_le _ _ Hx).
Qed.

(** C1. When [getItems] (listItems) or [getItemsByName] (searchItems)
    returns a page, its flag [isEndOfCollection] is true exactly when
    the number of items of the page is strictly less than the limit the
    method was called with, and less than 10 when it was called with
    none.  At the end points, [GET /api/get-items] with the maximum 100
    and [GET /api/search] with the maximum 20: when the request is
    answered with a page, the flag is true exactly when the number of
    items is less than the number the query's [limit] is, for a number
    that is not 0 and is not above the maximum; less than 10, when the
    query has no [limit] or one that is 0 or not a number; less than
    the maximum, when the query's [limit] is above it. *)
Theorem isEndOfCollection_iff_fewer_than_limit :
  forall JSON_parse cursor_window text_search,
    (forall pagination limit filters c c' page,
        getItems JSON_parse cursor_window pagination limit filters c = (c', Ok page) ->
        (isEndOfCollection page = true <->
         fewer_than (List.length (items page))
           match limit with Some l => l | None => Num 10 end)) /\
    (forall pagination limit search c c' page,
        getItemsByName cursor_window text_search pagination limit search c
        = (c', Ok page) ->
        (isEndOfCollection page = true <->
         fewer_than (List.length (items page))
           match limit with Some l => l | None => Num 10 end)) /\
    (forall Number_of_text req c c' page (cap : Q),
        (cap = 100%Q /\
         api_get_items Number_of_text JSON_parse cursor_window req c
         = (c', respond 200 (BPage page))) \/
        (cap = 20%Q /\
         api_search Number_of_text cursor_window text_search req c
         = (c', respond 200 (BPage page))) ->
        let asked := Number Number_of_text (get "limit" (query req)) in
        let n := inject_Z (Z.of_nat (List.length (items page))) in
        (forall x,
            asked = Num x -> ~ (x == 0)%Q -> (x <= cap)%Q ->
            (isEndOfCollection page = true <-> (n < x)%Q)) /\
        (asked = NaN \/ (exists x, asked = Num x /\ (x == 0)%Q) ->
         (isEndOfCollection page = true <-> (n < 10)%Q)) /\
        (asked = Infinity \/ (exists x, asked = Num x /\ (cap < x)%Q) ->
         (isEndOfCollection page = true <-> (n < cap)%Q))).
Proof.
  intros JSON_parse cursor_window text_search. split; [|split].
  - intros pagination limit filters c c' page H.
    rewrite (getItems_flag _ _ _ _ _ _ _ _ H). apply number_lt_fewer_than.
  - intros pagination limit search c c' page H.
    rewrite (getItemsByName_flag _ _ _ _ _ _ _ _ H). apply number_lt_fewer_than.
  - intros Number_of_text req c c' page cap H asked n.
    assert (C : (10 <= cap)%Q) by (destruct H as [[-> _] | [-> _]]; discriminate).
    assert (F : isEndOfCollection page = true <->
                fewer_than (List.length (items page))
                  (Math_min (number_or asked (Num 10)) (Num cap))).
    { destruct H as [[-> H] | [-> H]].
      - now apply api_get_items_flag in H.
      - now apply api_search_flag in H. }
    split; [|split].
    + intros x E H0 Hc. rewrite F, E, (effective_limit_in_range x cap H0 Hc).
      reflexivity.
    + intros E. rewrite F, (effective_limit_default asked cap E C).
      reflexivity.
    + intros E. rewrite F, (effective_limit_above asked cap E).
      * reflexivity.
      * apply Qlt_le_trans with 10%Q; [reflexivity | exact C].
Qed.

Lemma isEndOfCollection_iff_fewer_than_limit_witness :
  let first := {| items := [Sample.margarita]; isEndOfCollection := false |} in
  let both := {| items := [Sample.margarita; Sample.mojito];
                 isEndOfCollection := true |} in
  let found := {| items := [Sample.mojito]; isEndOfCollection := true |} in
  let req := Sample.request [("search", "Mojito"); ("limit", "3")] None in
  (getItems Sample.JSON_parse Sample.cursor_window (Num 0) (Some (Num 1)) None
     Sample.bar
   = (called (Find [] (Num 0) (Num 1)) Sample.bar, Ok first) /\
   (isEndOfCollection first = true <-> fewer_than 1 (Num 1))) /\
  (getItems Sample.JSON_parse Sample.cursor_window (Num 0) None None Sample.bar
   = (called (Find [] (Num 0) (Num 10)) Sample.bar, Ok both) /\
   (isEndOfCollection both = true <-> fewer_than 2 (Num 10))) /\
  (getItemsByName Sample.cursor_window Sample.text_search (Num 0) (Some (Num 5))
     "Mojito" Sample.bar
   = (called (FindText "Mojito" (Num 0) (Num 5)) Sample.bar, Ok found) /\
   (isEndOfCollection found = true <-> fewer_than 1 (Num 5))) /\
  (api_search Sample.Number_of_text Sample.cursor_window Sample.text_search req
     Sample.bar
   = (called (FindText "Mojito" (Num 0) (Num 3)) Sample.bar,
      respond 200 (BPage found)) /\
   (isEndOfCollection found = true <-> (inject_Z 1 < 3)%Q)).
Proof.
  intros first both found req.
  pose proof (isEndOfCollection_iff_fewer_than_limit
                Sample.JSON_parse Sample.cursor_window Sample.text_search)
    as [G [S E]].
  split; [|split; [|split]]; (split; [reflexivity|]).
  - apply (G (Num 0) (Some (Num 1)) None Sample.bar
             (called (Find [] (Num 0) (Num 1)) Sample.bar) first).
    reflexivity.
  - apply (G (Num 0) None None Sample.bar
             (called (Find [] (Num 0) (Num 10)) Sample.bar) both).
    reflexivity.
  - apply (S (Num 0) (Some (Num 5)) "Mojito" Sample.bar
             (called (FindText "Mojito" (Num 0) (Num 5)) Sample.bar) found).
    reflexivity.
  - apply (proj1 (E Sample.Number_of_text req Sample.bar
                    (called (FindText "Mojito" (Num 0) (Num 3)) Sample.bar)
                    found 20%Q (or_intror (conj eq_refl eq_refl)))
             3%Q eq_refl).
    + discriminate.
    + discriminate.
Defined.

(* ================================================================== *)
(** * The limits and the search parameter *)

Section EndPoints.
Variable Number_of_text : string -> number.
Variable JSON_parse : string -> option Value.
Variable cursor_window : number -> number -> list Doc -> option (list Doc).
Variable text_search : string -> list Doc -> option (list Doc).

(** The limit an end point computes from the query string. *)
Lemma capped_limit_at_most :
  forall (v : option string) (cap : Z),
    at_most (Math_min (number_or (Number Number_of_text v) (Num 10))
                      (Num (inject_Z cap))) cap.
Proof.
  intros v cap. apply Math_min_at_most. now apply number_or_truthy.
Qed.

(** What [getItems] adds to the log of calls: nothing or one [find]
    with the limit it was given. *)
Lemma getItems_oplog :
  forall pagination limit filters c,
    let c' := fst (getItems JSON_parse cursor_window pagination limit filters c) in
    oplog c' = oplog c \/
    exists q, oplog c' = Find q pagination (limit_or_default limit) :: oplog c.
Proof.
  intros pagination limit filters c. unfold getItems, bind, lift, ret.
  destruct (parseFilters JSON_parse filters) as [q|e]; simpl; [|now left].
  right. exists q. unfold find.
  destruct (in_conditions q) as [cs|]; [|reflexivity].
  now destruct (cursor_window _ _ _).
Qed.

Lemma getItemsByName_oplog :
  forall pagination limit search c,
    oplog (fst (getItemsByName cursor_window text_search pagination limit search c))
    = FindText search pagination (limit_or_default limit) :: oplog c.
Proof.
  intros pagination limit search c. unfold getItemsByName, bind, ret, find_text.
  destruct (text_search search (docs c)) as [ds|]; [|reflexivity].
  now destruct (cursor_window _ _ ds).
Qed.

Lemma api_get_items_oplog :
  forall req c,
    let c' := fst (api_get_items Number_of_text JSON_parse cursor_window req c) in
    oplog c' = oplog c \/
    exists q s l, oplog c' = Find q s l :: oplog c /\ at_most l 100.
Proof.
  intros req c. unfold api_get_items.
  match goal with
  | |- context [getItems _ _ ?p ?l ?f c] =>
      pose proof (getItems_oplog p l f c) as H;
      destruct (getItems JSON_parse cursor_window p l f c) as [c1 [page|e]]
  end; simpl in *.
  - destruct H as [H|[q H]]; [now left|]. right.
    exists q. eexists. eexists. split; [exact H|]. apply capped_limit_at_most.
  - destruct H as [H|[q H]]; [now left|]. right.
    exists q. eexists. eexists. split; [exact H|]. apply capped_limit_at_most.
Qed.

Lemma api_search_oplog :
  forall req c,
    let c' := fst (api_search Number_of_text cursor_window text_search req c) in
    oplog c' = oplog c \/
    exists search s l,
      oplog c' = FindText search s l :: oplog c /\ at_most l 20 /\ search <> "".
Proof.
  intros req c. unfold api_search.
  destruct (String.eqb _ "") eqn:E; simpl; [now left|]. right.
  apply String.eqb_neq in E.
  match goal with
  | |- context [getItemsByName _ _ ?p ?l ?s c] =>
      pose proof (getItemsByName_oplog p l s c) as H;
      destruct (getItemsByName cursor_window text_search p l s c) as [c1 [page|e]]
  end; simpl in *;
    (eexists; eexists; eexists; split; [exact H|]; split;
     [apply capped_limit_at_most | exact E]).
Qed.
End EndPoints.

(** C8. [GET /api/search] with the parameter [search] missing or empty
    answers 400 and makes no call on the collection; and no call that the
    end point makes on the collection carries an empty search string. *)
Theorem search_without_query_is_400 :
  forall Number_of_text cursor_window text_search req c,
    (get "search" (query req) = None \/ get "search" (query req) = Some "" ->
     api_search Number_of_text cursor_window text_search req c
     = (c, respond 400 (BError "Missing search parameter"))) /\
    (forall op,
        In op (oplog (fst (api_search Number_of_text cursor_window text_search req c))) ->
        In op (oplog c) \/ exists search s l, op = FindText search s l /\ search <> "").
Proof.
  intros Number_of_text cursor_window text_search req c. split.
  - unfold api_search. now intros [-> | ->].
  - intros op H.
    destruct (api_search_oplog Number_of_text cursor_window text_search req c)
      as [E|[q [s [l [E [_ Hq]]]]]]; rewrite E in H; [now left|].
    destruct H as [<-|H]; [right; now exists q, s, l | now left].
Qed.

Lemma search_without_query_is_400_witness :
  api_search Sample.Number_of_text Sample.cursor_window Sample.text_search
    (Sample.request [("search", "")] None) Sample.bar
  = (Sample.bar, respond 400 (BError "Missing search parameter")).
Proof.
  apply (proj1 (search_without_query_is_400
                  Sample.Number_of_text Sample.cursor_window Sample.text_search
                  (Sample.request [("search", "")] None) Sample.bar)).
  right. reflexivity.
Defined.

(* ================================================================== *)
(** * Uploading an image *)

(** C10. [POST /api/upload-image] without the file field [image] is
    answered 500 (not 400) with the message of the error thrown in the
    handler, and the media host is not reached: it is left as it was,
    whatever its uploader does. *)
Theorem upload_without_file_is_500 :
  forall (Media : Type)
         (upload_end : UploadOptions -> string -> Media -> Media * result UploadResult)
         req m,
    file req = None ->
    exists msg,
      api_upload_image Media upload_end req m
      = (m, respond 500 (BFailure "Image upload failed" msg)) /\
      status (snd (api_upload_image Media upload_end req m)) <> 400 /\
      forall other_end,
        api_upload_image Media other_end req m
        = api_upload_image Media upload_end req m.
Proof.
  intros Media upload_end req m H. unfold api_upload_image. rewrite H.
  eexists. split; [reflexivity|]. split; [simpl; discriminate | reflexivity].
Qed.

Lemma upload_without_file_is_500_witness :
  exists msg,
    api_upload_image Sample.Media Sample.upload_end (Sample.request [] None) []
    = ([], respond 500 (BFailure "Image upload failed" msg)) /\
    status (snd (api_upload_image Sample.Media Sample.upload_end
                   (Sample.request [] None) [])) <> 400 /\
    forall other_end,
      api_upload_image Sample.Media other_end (Sample.request [] None) []
      = api_upload_image Sample.Media Sample.upload_end (Sample.request [] None) [].
Proof.
  apply (upload_without_file_is_500 Sample.Media Sample.upload_end
           (Sample.request [] None) []).
  reflexivity.
Defined.

(* ================================================================== *)
(** * Filters *)

Section ObjectKeys.
Context {A : Type}.

Lemma keys_set_In :
  forall (k k' : string) (v : A) (o : object A),
    In k' (keys (set k v o)) <-> k' = k \/ In k' (keys o).
Proof.
  intros k k' v o. induction o as [|[k0 v0] o IH]; simpl.
  - intuition.
  - destruct (String.eqb k0 k) eqn:E; simpl.
    + apply String.eqb_eq in E. subst. intuition.
    + rewrite IH. intuition.
Qed.

Lemma NoDup_keys_set :
  forall (k : string) (v : A) (o : object A),
    NoDup (keys o) -> NoDup (keys (set k v o)).
Proof.
  intros k v o. induction o as [|[k0 v0] o IH]; simpl; intros ND.
  - constructor; [intros [] | constructor].
  - inversion ND as [|? ? Hn ND']; subst.
    destruct (String.eqb k0 k) eqn:E; simpl.
    + apply String.eqb_eq in E. subst. now constructor.
    + constructor; [|now apply IH].
      rewrite keys_set_In. intros [->|H]; [|contradiction].
      now rewrite String.eqb_refl in E.
Qed.

Lemma set_Forall :
  forall (Q : string * A -> Prop) (k : string) (v : A) (o : object A),
    Q (k, v) -> Forall Q o -> Forall Q (set k v o).
Proof.
  intros Q k v o Hv. induction o as [|[k0 v0] o IH]; simpl; intros H.
  - now constructor.
  - inversion H; subst. destruct (String.eqb k0 k); constructor; auto.
Qed.

(** In an object that has each key once, the properties are what
    [get] finds. *)
Lemma In_get_NoDup :
  forall (k : string) (v : A) (o : object A),
    NoDup (keys o) -> (In (k, v) o <-> get k o = Some v).
Proof.
  intros k v o. induction o as [|[k0 v0] o IH]; simpl; intros ND.
  - split; [intros [] | discriminate].
  - inversion ND as [|? ? Hn ND']; subst.
    destruct (String.eqb k0 k) eqn:E.
    + apply String.eqb_eq in E. subst. split.
      * intros [H|H]; [congruence|].
        exfalso. apply Hn. change k with (fst (k, v)). now apply in_map.
      * intros H. left. congruence.
    + apply String.eqb_neq in E. rewrite <- (IH ND'). split.
      * intros [H|H]; [congruence | assumption].
      * now right.
Qed.
End ObjectKeys.

Section Assignment.
Context {A : Type}.

Lemma get_assign_same :
  forall (k : string) (v : A) (o : object A),
    k <> "__proto__" -> get k (assign k v o) = Some v.
Proof.
  intros k v o N. unfold assign. apply String.eqb_neq in N. rewrite N.
  apply get_set_same.
Qed.

Lemma get_assign_other :
  forall (k k' : string) (v : A) (o : object A),
    k' <> k -> get k' (assign k v o) = get k' o.
Proof.
  intros k k' v o N. unfold assign.
  destruct (String.eqb k "__proto__"); [reflexivity|].
  now apply get_set_other.
Qed.

(** No assignment gives the object a property [__proto__]. *)
Lemma get_assign_proto :
  forall (k : string) (v : A) (o : object A),
    get "__proto__" (assign k v o) = get "__proto__" o.
Proof.
  intros k v o. unfold assign.
  destruct (String.eqb k "__proto__") eqn:E; [reflexivity|].
  apply String.eqb_neq in E. apply get_set_other. congruence.
Qed.

Lemma NoDup_keys_assign :
  forall (k : string) (v : A) (o : object A),
    NoDup (keys o) -> NoDup (keys (assign k v o)).
Proof.
  intros k v o ND. unfold assign.
  destruct (String.eqb k "__proto__"); [exact ND|].
  now apply NoDup_keys_set.
Qed.

Lemma assign_Forall :
  forall (Q : string * A -> Prop) (k : string) (v : A) (o : object A),
    Q (k, v) -> Forall Q o -> Forall Q (assign k v o).
Proof.
  intros Q k v o Hv H. unfold assign.
  destruct (String.eqb k "__proto__"); [exact H|].
  now apply set_Forall.
Qed.
End Assignment.

(** The loop of [getItems] on a list of filters: each name but
    [__proto__] is bound to the values of its last filter, and
    [__proto__] is bound to nothing. *)
Lemma prepareFilters_last_named :
  forall values fs, Forall2 describes values fs ->
  forall acc,
    NoDup (keys acc) -> Forall in_condition acc ->
    exists q,
      prepareFilters values acc = Ok q /\
      NoDup (keys q) /\ Forall in_condition q /\
      get "__proto__" q = get "__proto__" acc /\
      forall n,
        n <> "__proto__" ->
        get n q =
        match last_named n fs with
        | Some vals => Some (Some (VArr vals))
        | None => get n acc
        end.
Proof.
  induction 1 as [|f [n0 vs0] values fs [Hn Hv] _ IH]; intros acc ND HF.
  - exists acc. now repeat split.
  - simpl in Hn, Hv. simpl prepareFilters. rewrite Hn, Hv. simpl String_of.
    destruct (IH (assign n0 (Some (VArr vs0)) acc)) as [q [E [NDq [HFq [P G]]]]].
    + now apply NoDup_keys_assign.
    + apply assign_Forall; [now exists vs0 | assumption].
    + exists q. repeat split; try assumption.
      * rewrite P. apply get_assign_proto.
      * intros n Hp. rewrite (G n Hp). unfold last_named. simpl rev.
        rewrite get_app.
        destruct (get n (rev fs)); [reflexivity|]. simpl.
        destruct (String.eqb n0 n) eqn:En.
        -- apply String.eqb_eq in En. subst. now apply get_assign_same.
        -- apply String.eqb_neq in En. apply get_assign_other. congruence.
Qed.

Lemma in_conditions_total :
  forall q, Forall in_condition q ->
    exists cs,
      in_conditions q = Some cs /\ keys cs = keys q /\
      forall n vals, get n cs = Some vals <-> get n q = Some (Some (VArr vals)).
Proof.
  induction 1 as [|[n c] q [vals Hc] _ [cs [E [K G]]]]; simpl in *.
  - exists []. repeat split; discriminate.
  - subst c. rewrite E. exists ((n, vals) :: cs). simpl. rewrite K.
    repeat split; try reflexivity.
    + destruct (String.eqb n n0); [|now apply G]. congruence.
    + destruct (String.eqb n n0); [|now apply G]. congruence.
Qed.

Lemma matches_spec :
  forall cs d, NoDup (keys cs) ->
    (matches cs d = true <->
     forall n vals, get n cs = Some vals -> satisfies d n vals).
Proof.
  intros cs d ND. unfold matches. rewrite forallb_forall. split.
  - intros H n vals G. apply field_in_match_satisfies.
    apply (H (n, vals)). now apply In_get_NoDup.
  - intros H [n vals] Hin. simpl. apply field_in_match_satisfies.
    apply H. now apply In_get_NoDup.
Qed.

Section Filters.
Variable JSON_parse : string -> option Value.
Variable cursor_window : number -> number -> list Doc -> option (list Doc).

(** The page [getItems] returns for a list of filters is the window of
    the cursor on the documents that satisfy, for each name but
    [__proto__], the last filter of that name. *)
Lemma getItems_filtered :
  forall pagination limit text filtersObject values fs c c' page,
    text <> "" ->
    JSON_parse text = Some filtersObject ->
    Object_values filtersObject = Some values ->
    Forall2 describes values fs ->
    getItems JSON_parse cursor_window pagination limit (Some text) c = (c', Ok page) ->
    exists matched,
      cursor_window pagination (limit_or_default limit) matched = Some (items page) /\
      forall d,
        In d matched <->
        In d (docs c) /\
        forall n vals,
          n <> "__proto__" -> last_named n fs = Some vals -> satisfies d n vals.
Proof.
  intros pagination limit text filtersObject values fs c c' page
         Ht Hp Hv Hd.
  unfold getItems, bind, lift, ret, parseFilters.
  apply String.eqb_neq in Ht. rewrite Ht, Hp, Hv.
  destruct (prepareFilters_last_named values fs Hd [])
    as [q [E [NDq [HFq [P G]]]]]; [constructor | constructor |].
  rewrite E. unfold find.
  destruct (in_conditions_total q HFq) as [cs [Ec [K Gc]]]. rewrite Ec.
  destruct (cursor_window pagination (limit_or_default limit)
              (List.filter (matches cs) (docs c))) as [r|] eqn:W;
    [|discriminate].
  intros H. injection H as _ <-. simpl.
  exists (List.filter (matches cs) (docs c)). split; [exact W|].
  intros d. rewrite filter_In, matches_spec by (now rewrite K).
  split; intros [Hin Hs]; (split; [exact Hin|]).
  - intros n vals Hn L. apply Hs. apply Gc. now rewrite (G n Hn), L.
  - intros n vals L. apply Gc in L.
    destruct (String.eqb n "__proto__") eqn:En.
    + apply String.eqb_eq in En. subst. rewrite P in L. discriminate.
    + apply String.eqb_neq in En. apply Hs; [exact En|].
      rewrite (G n En) in L.
      destruct (last_named n fs); [congruence | discriminate].
Qed.
End Filters.

(** C2, as the code has it.  For a list of filters whose names are
    attribute names, [getItems] turns each (filterName, filterValues)
    whose name is not [__proto__] into the membership predicate
    [{$in: filterValues}] on that attribute, a later filter replacing an
    earlier one of the same name; the page is the cursor's window on the
    documents that satisfy all the remaining predicates, so every item
    returned satisfies, for every name but [__proto__], the last filter
    of that name: its value for the attribute ([null] when it has none),
    or an element of that value when it is an array, is among the
    permitted values.  When the names are pairwise distinct, every filter
    whose name is not [__proto__] holds of every item returned. *)
Theorem filters_conjoined_last_of_a_name_wins :
  forall JSON_parse cursor_window,
    (forall s l ds r, cursor_window s l ds = Some r -> incl r ds) ->
  forall pagination limit text filtersObject values fs c c' page,
    text <> "" ->
    JSON_parse text = Some filtersObject ->
    Object_values filtersObject = Some values ->
    Forall2 describes values fs ->
    Forall (fun p => attribute_name (fst p) = true) fs ->
    getItems JSON_parse cursor_window pagination limit (Some text) c = (c', Ok page) ->
    (exists matched,
        cursor_window pagination match limit with Some l => l | None => Num 10 end
          matched
        = Some (items page) /\
        forall d,
          In d matched <->
          In d (docs c) /\
          forall n vals,
            n <> "__proto__" -> last_named n fs = Some vals -> satisfies d n vals) /\
    (forall d,
        In d (items page) ->
        In d (docs c) /\
        forall n vals,
          n <> "__proto__" -> last_named n fs = Some vals -> satisfies d n vals) /\
    (NoDup (keys fs) ->
     forall d n vals,
       In d (items page) -> In (n, vals) fs -> n <> "__proto__" ->
       satisfies d n vals).
Proof.
  intros JSON_parse cursor_window Hw pagination limit text filtersObject
         values fs c c' page Ht Hp Hv Hd _ H.
  destruct (getItems_filtered JSON_parse cursor_window _ _ _ _ _ _ _ _ _
              Ht Hp Hv Hd H) as [matched [W M]].
  assert (R : forall d, In d (items page) ->
                In d (docs c) /\
                forall n vals,
                  n <> "__proto__" -> last_named n fs = Some vals ->
                  satisfies d n vals).
  { intros d Hin. apply M. exact (Hw _ _ _ _ W d Hin). }
  split; [now exists matched|]. split; [exact R|].
  intros ND d n vals Hin Hf Hn. apply (R d Hin); [exact Hn|].
  unfold last_named. rewrite get_rev_NoDup by assumption.
  now apply In_get_NoDup.
Qed.

Lemma sample_cursor_window_incl :
  forall s l ds r, Sample.cursor_window s l ds = Some r -> incl r ds.
Proof.
  intros s l ds r. unfold Sample.cursor_window.
  destruct (Sample.natural s) as [a|]; [|discriminate].
  destruct (Sample.natural l) as [b|]; [|discriminate].
  intros E x Hx. injection E as <-.
  rewrite <- (firstn_skipn a ds). apply in_or_app. right.
  rewrite <- (firstn_skipn b (skipn a ds)). apply in_or_app. now left.
Qed.

Lemma filters_conjoined_last_of_a_name_wins_witness :
  let page := {| items := [Sample.margarita]; isEndOfCollection := true |} in
  let fs := [("__proto__", [VStr "sweet"]); ("taste", [VStr "sour"])] in
  getItems SampleProto.JSON_parse Sample.cursor_window (Num 0) (Some (Num 10))
    (Some SampleProto.text) Sample.bar
  = (called (Find [("taste", Some (VArr [VStr "sour"]))] (Num 0) (Num 10)) Sample.bar,
     Ok page) /\
  (forall d,
      In d (items page) ->
      In d (docs Sample.bar) /\
      forall n vals,
        n <> "__proto__" -> last_named n fs = Some vals -> satisfies d n vals) /\
  (forall d n vals,
      In d (items page) -> In (n, vals) fs -> n <> "__proto__" ->
      satisfies d n vals).
Proof.
  intros page fs. split; [reflexivity|].
  pose proof (filters_conjoined_last_of_a_name_wins
                SampleProto.JSON_parse Sample.cursor_window
                sample_cursor_window_incl
                (Num 0) (Some (Num 10)) SampleProto.text
                (VArr [Sample.filter_of "__proto__" [VStr "sweet"];
                       Sample.filter_of "taste" [VStr "sour"]])
                [Sample.filter_of "__proto__" [VStr "sweet"];
                 Sample.filter_of "taste" [VStr "sour"]]
                fs Sample.bar
                (called (Find [("taste", Some (VArr [VStr "sour"]))] (Num 0) (Num 10))
                        Sample.bar)
                page) as H.
  destruct H as [_ [H2 H3]].
  - discriminate.
  - reflexivity.
  - reflexivity.
  - repeat constructor.
  - repeat constructor.
  - reflexivity.
  - split; [exact H2|]. apply H3.
    repeat constructor; simpl; intuition discriminate.
Defined.

(** C2 as stated fails on two filters of one name: the item returned,
    whose taste is sour, does not satisfy the first filter, which permits
    sweet only. *)
Lemma filters_of_one_name_counterexample :
  let page := {| items := [Sample.margarita]; isEndOfCollection := true |} in
  Sample.JSON_parse Sample.two_filters_text
  = Some (VArr [Sample.filter_of "taste" [VStr "sweet"];
                Sample.filter_of "taste" [VStr "sour"]]) /\
  describes (Sample.filter_of "taste" [VStr "sweet"]) ("taste", [VStr "sweet"]) /\
  describes (Sample.filter_of "taste" [VStr "sour"]) ("taste", [VStr "sour"]) /\
  attribute_name "taste" = true /\
  getItems Sample.JSON_parse Sample.cursor_window (Num 0) (Some (Num 10))
    (Some Sample.two_filters_text) Sample.bar
  = (called (Find [("taste", Some (VArr [VStr "sour"]))] (Num 0) (Num 10)) Sample.bar,
     Ok page) /\
  In Sample.margarita (items page) /\
  ~ satisfies Sample.margarita "taste" [VStr "sweet"].
Proof.
  repeat split; try reflexivity.
  - now left.
  - intros H. apply field_in_match_satisfies in H. discriminate.
Qed.

(* ================================================================== *)
(** * The collection: writes *)

Lemma has_id_spec :
  forall id ds,
    existsb (Id_eqb id) (map _id ds) = true <-> exists d, In d ds /\ _id d = id.
Proof.
  intros id ds. rewrite existsb_exists. split.
  - intros [i [Hi E]]. apply in_map_iff in Hi as [d [Ed Hd]].
    apply Id_eqb_eq in E. exists d. split; congruence.
  - intros [d [Hd E]]. exists id. split; [|apply Id_eqb_refl].
    rewrite <- E. now apply in_map.
Qed.

Lemma has_id_false :
  forall id ds,
    existsb (Id_eqb id) (map _id ds) = false <-> forall d, In d ds -> _id d <> id.
Proof.
  intros id ds. split.
  - intros E d Hd Hid.
    assert (H : existsb (Id_eqb id) (map _id ds) = true)
      by (apply has_id_spec; now exists d).
    congruence.
  - intros H. destruct (existsb _ _) eqn:E; [|reflexivity].
    apply has_id_spec in E as [d [Hd Hid]]. now apply H in Hd.
Qed.

(** The first document with an identifier. *)
Lemma first_with_id :
  forall id ds d,
    In d ds -> _id d = id ->
    exists pre d' post,
      ds = pre ++ d' :: post /\ _id d' = id /\ forall x, In x pre -> _id x <> id.
Proof.
  intros id ds d. induction ds as [|y ds IH]; intros Hin Hid; [contradiction|].
  destruct (Id_eqb id (_id y)) eqn:E.
  - apply Id_eqb_eq in E. exists [], y, ds. repeat split; [congruence | intros x []].
  - apply Id_eqb_neq in E. destruct Hin as [->|Hin]; [congruence|].
    destruct (IH Hin Hid) as [pre [d' [post [-> [Hd' Hpre]]]]].
    exists (y :: pre), d', post. repeat split; [assumption|].
    intros x [<-|Hx]; [congruence | now apply Hpre].
Qed.

(** With a unique index the first document with an identifier is the
    only one. *)
Lemma only_with_id :
  forall ds d,
    NoDup (map _id ds) -> In d ds ->
    exists pre post,
      ds = pre ++ d :: post /\
      forall x, In x (pre ++ post) -> _id x <> _id d.
Proof.
  intros ds d ND Hin. apply in_split in Hin as [pre [post ->]].
  exists pre, post. split; [reflexivity|].
  rewrite map_app in ND. simpl in ND. apply NoDup_remove_2 in ND.
  intros x Hx E. apply ND. rewrite <- map_app, <- E. now apply in_map.
Qed.

Lemma remove_first_split :
  forall id pre d post,
    _id d = id -> (forall x, In x pre -> _id x <> id) ->
    remove_first id (pre ++ d :: post) = pre ++ post.
Proof.
  intros id pre d post Hd. induction pre as [|y pre IH]; intros Hpre; simpl.
  - now rewrite Hd, Id_eqb_refl.
  - assert (E : Id_eqb id (_id y) = false).
    { apply Id_eqb_neq. intros E. apply (Hpre y); [now left | congruence]. }
    rewrite E. f_equal. apply IH. intros x Hx. apply Hpre. now right.
Qed.

Lemma update_first_split :
  forall id upd pre d post,
    _id d = id -> (forall x, In x pre -> _id x <> id) ->
    update_first id upd (pre ++ d :: post)
    = pre ++ {| _id := _id d; attrs := apply_set upd (attrs d) |} :: post.
Proof.
  intros id upd pre d post Hd. induction pre as [|y pre IH]; intros Hpre; simpl.
  - now rewrite Hd, Id_eqb_refl.
  - assert (E : Id_eqb id (_id y) = false).
    { apply Id_eqb_neq. intros E. apply (Hpre y); [now left | congruence]. }
    rewrite E. f_equal. apply IH. intros x Hx. apply Hpre. now right.
Qed.

Lemma update_first_ids :
  forall id upd ds, map _id (update_first id upd ds) = map _id ds.
Proof.
  intros id upd ds. induction ds as [|y ds IH]; simpl; [reflexivity|].
  destruct (Id_eqb id (_id y)); simpl; [reflexivity | now rewrite IH].
Qed.

Lemma remove_first_incl :
  forall id ds, incl (remove_first id ds) ds.
Proof.
  intros id ds. induction ds as [|y ds IH]; simpl; [easy|].
  destruct (Id_eqb id (_id y)).
  - now apply incl_tl.
  - intros x [<-|Hx]; [now left | right; now apply IH].
Qed.

Lemma remove_first_NoDup :
  forall id ds, NoDup (map _id ds) -> NoDup (map _id (remove_first id ds)).
Proof.
  intros id ds. induction ds as [|y ds IH]; simpl; intros ND; [constructor|].
  inversion ND as [|? ? Hn ND']; subst.
  destruct (Id_eqb id (_id y)); simpl; [assumption|].
  constructor; [|now apply IH].
  intros H. apply Hn. apply in_map_iff in H as [x [E Hx]].
  apply in_map_iff. exists x. split; [assumption|].
  now apply (remove_first_incl id ds).
Qed.

(* ================================================================== *)
(** * Deleting *)

(** C7. [remove] with a valid identifier of a document of the collection
    removes that document and no other, and reports one deletion; the
    same call again leaves the documents as they are and reports no
    deletion. *)
Theorem remove_once_then_noop :
  forall data oid c d,
    ObjectId.new (String_of (get "id" data)) = Some oid ->
    unique_ids c ->
    In d (docs c) -> _id d = IdOid oid ->
    exists pre post c1 c2,
      docs c = pre ++ d :: post /\
      remove data c = (c1, Ok {| deletedCount := 1 |}) /\
      docs c1 = pre ++ post /\
      (forall x, In x (docs c1) -> _id x <> IdOid oid) /\
      remove data c1 = (c2, Ok {| deletedCount := 0 |}) /\
      docs c2 = docs c1.
Proof.
  intros data oid c d Hv ND Hin Hid.
  destruct (only_with_id (docs c) d ND Hin) as [pre [post [Hs Hn]]].
  rewrite Hid in Hn.
  assert (Hpre : forall x, In x pre -> _id x <> IdOid oid)
    by (intros x Hx; apply Hn, in_or_app; now left).
  assert (E1 : existsb (Id_eqb (IdOid oid)) (map _id (docs c)) = true)
    by (apply has_id_spec; now exists d).
  assert (E2 : existsb (Id_eqb (IdOid oid)) (map _id (pre ++ post)) = false)
    by now apply has_id_false.
  exists pre, post.
  eexists. eexists. split; [exact Hs|].
  assert (V : ObjectId.isValid (String_of (get "id" data)) = true)
    by (unfold ObjectId.isValid; now rewrite Hv).
  unfold remove, new_ObjectId. rewrite V, Hv.
  unfold bind, ret, deleteOne. cbn [negb]. cbv iota beta. rewrite E1.
  split; [reflexivity|]. simpl docs.
  rewrite Hs, (remove_first_split (IdOid oid) pre d post Hid Hpre), E2.
  repeat split. exact Hn.
Qed.

Lemma remove_once_then_noop_witness :
  exists pre post c1 c2,
    docs Sample.bar = pre ++ Sample.mojito :: post /\
    remove [("id", VStr Sample.mojito_id)] Sample.bar
    = (c1, Ok {| deletedCount := 1 |}) /\
    docs c1 = pre ++ post /\
    (forall x, In x (docs c1) -> _id x <> IdOid 1%N) /\
    remove [("id", VStr Sample.mojito_id)] c1 = (c2, Ok {| deletedCount := 0 |}) /\
    docs c2 = docs c1.
Proof.
  apply (remove_once_then_noop [("id", VStr Sample.mojito_id)] 1%N
           Sample.bar Sample.mojito).
  - reflexivity.
  - unfold unique_ids. simpl. repeat constructor; simpl; intuition discriminate.
  - simpl. now right; left.
  - reflexivity.
Defined.

(* ================================================================== *)
(** * Updating *)

Lemma prefix_cons :
  forall a b s1 s2,
    String.prefix (String a s1) (String b s2) = Ascii.eqb a b && String.prefix s1 s2.
Proof.
  intros a b s1 s2. cbn [String.prefix].
  destruct (ascii_dec a b) as [->|N].
  - now rewrite Ascii.eqb_refl.
  - apply Ascii.eqb_neq in N. now rewrite N.
Qed.

Lemma prefix_empty : forall s, String.prefix "" s = true.
Proof. now intros [|b s]. Qed.

(** A name without a dot is a path of one part. *)
Lemma no_dot_one_part :
  forall k, String.index 0 "." k = None -> path_parts k = [k].
Proof.
  induction k as [|ch k IH]; [reflexivity|].
  cbn [String.index path_parts]. rewrite prefix_cons, prefix_empty, andb_true_r.
  rewrite Ascii.eqb_sym.
  destruct (Ascii.eqb ch ".") eqn:E; [intros H; discriminate H|].
  destruct (String.index 0 "." k) as [n|]; [intros H; discriminate H|].
  intros _. now rewrite IH.
Qed.

Lemma no_dollar_not_positional :
  forall k, String.prefix "$" k = false -> positional k = false.
Proof.
  intros [|ch k]; [reflexivity|]. unfold positional.
  rewrite !prefix_cons, prefix_empty, andb_true_r. cbn [String.eqb].
  rewrite (Ascii.eqb_sym ch). now intros ->.
Qed.

(** [$set] takes the names that are attribute names and not empty. *)
Lemma settable_not_refused :
  forall k,
    settable_name k = true ->
    refused_path k = false /\
    (k <> "_id" -> refused_on_document k = false).
Proof.
  intros k H. unfold settable_name, attribute_name in H.
  apply andb_prop in H as [H Hne]. apply andb_prop in H as [Hd Hi].
  apply negb_true_iff in Hd, Hne.
  destruct (String.index 0 "." k) as [n|] eqn:Ei; [discriminate|].
  pose proof (no_dot_one_part k Ei) as P.
  unfold refused_path, refused_on_document, first_part. rewrite P.
  cbn [existsb hd]. rewrite (no_dollar_not_positional k Hd), Hd.
  rewrite (String.eqb_sym "" k), Hne. split; [reflexivity|].
  intros N. apply String.eqb_neq in N. now rewrite N.
Qed.

Lemma existsb_none :
  forall (A : Type) (f : A -> bool) (l : list A),
    (forall x, In x l -> f x = false) -> existsb f l = false.
Proof.
  intros A f l H. induction l as [|x l IH]; [reflexivity|]. simpl.
  rewrite (H x) by now left. apply IH. intros y Hy. apply H. now right.
Qed.

Lemma keys_del_other :
  forall (k k' : string) (o : props), In k' (keys (del k o)) -> k' <> k.
Proof.
  intros k k' o. rewrite keys_del, filter_In. intros [_ H] ->.
  now rewrite String.eqb_refl in H.
Qed.

(** What [updateOne] does with the update of a payload without [_id]
    whose names [$set] takes. *)
Lemma updateOne_settable :
  forall oid data c,
    Forall (fun k => settable_name k = true) (keys (del "_id" data)) ->
    updateOne oid (del "_id" data) c
    = if existsb (Id_eqb (IdOid oid)) (map _id (docs c))
      then (with_docs (update_first (IdOid oid) (del "_id" data) (docs c))
              (called (UpdateOne oid (del "_id" data)) c),
            Ok {| matchedCount := 1 |})
      else (called (UpdateOne oid (del "_id" data)) c, Ok {| matchedCount := 0 |}).
Proof.
  intros oid data c H. rewrite Forall_forall in H. unfold updateOne.
  rewrite existsb_none by (intros k Hk; now apply settable_not_refused, H).
  rewrite (existsb_none _ refused_on_document); [reflexivity|].
  intros k Hk. apply settable_not_refused; [now apply H|].
  now apply keys_del_other in Hk.
Qed.

Lemma updateOne_oplog :
  forall oid upd c, oplog (fst (updateOne oid upd c)) = UpdateOne oid upd :: oplog c.
Proof.
  intros oid upd c. unfold updateOne.
  destruct (existsb refused_path (keys upd)); [reflexivity|].
  destruct (existsb _ (map _id (docs c))); [|reflexivity].
  now destruct (existsb refused_on_document (keys upd)).
Qed.

(** No update changes an identifier, adds a document or removes one. *)
Lemma updateOne_ids :
  forall oid upd c,
    map _id (docs (fst (updateOne oid upd c))) = map _id (docs c) /\
    next_pk (fst (updateOne oid upd c)) = next_pk c.
Proof.
  intros oid upd c. unfold updateOne.
  destruct (existsb refused_path (keys upd)); [now split|].
  destruct (existsb _ (map _id (docs c))); [|now split].
  destruct (existsb refused_on_document (keys upd)); [now split|].
  simpl. split; [apply update_first_ids | reflexivity].
Qed.

(** [edit] with an identifier that spells an ObjectId is one
    [updateOne] with the payload without [_id]. *)
Lemma edit_valid :
  forall data oid c,
    ObjectId.new (String_of (get "_id" data)) = Some oid ->
    edit data c
    = (fst (updateOne oid (del "_id" data) c),
       match snd (updateOne oid (del "_id" data) c) with
       | Ok _ => Ok tt
       | Throw e => Throw e
       end).
Proof.
  intros data oid c Hv.
  assert (V : ObjectId.isValid (String_of (get "_id" data)) = true)
    by (unfold ObjectId.isValid; now rewrite Hv).
  unfold edit, new_ObjectId. rewrite V, Hv.
  unfold bind, ret. cbn [negb]. cbv iota beta.
  now destruct (updateOne oid (del "_id" data) c) as [c1 [r|e]].
Qed.

(** C3. For a payload whose [_id] spells an ObjectId, the update [edit]
    sends to the collection is the payload without [_id], and the
    identifiers of the stored documents are the same after it, whatever
    the payload holds.  When the field names of the payload are names
    [$set] takes, [edit] succeeds, the first document with that
    identifier gets every field the payload names and keeps its other
    fields, and the other documents are unchanged. *)
Theorem edit_strips_id_and_merges :
  forall data oid c,
    ObjectId.new (String_of (get "_id" data)) = Some oid ->
    NoDup (keys data) ->
    oplog (fst (edit data c)) = UpdateOne oid (del "_id" data) :: oplog c /\
    get "_id" (del "_id" data) = None /\
    map _id (docs (fst (edit data c))) = map _id (docs c) /\
    (Forall (fun k => settable_name k = true) (keys (del "_id" data)) ->
     exists c',
       edit data c = (c', Ok tt) /\
       ((forall x, In x (docs c) -> _id x <> IdOid oid) -> docs c' = docs c) /\
       forall pre d post,
         docs c = pre ++ d :: post ->
         _id d = IdOid oid ->
         (forall x, In x pre -> _id x <> IdOid oid) ->
         exists d',
           docs c' = pre ++ d' :: post /\
           _id d' = _id d /\
           forall k, k <> "_id" ->
             get k (attrs d') =
             match get k data with
             | Some v => Some v
             | None => get k (attrs d)
             end).
Proof.
  intros data oid c Hv ND. rewrite (edit_valid data oid c Hv). simpl fst.
  split; [apply updateOne_oplog|]. split; [apply get_del_same|].
  split; [apply updateOne_ids|].
  intros Hs. rewrite (updateOne_settable oid data c Hs).
  destruct (existsb (Id_eqb (IdOid oid)) (map _id (docs c))) eqn:E.
  - eexists. split; [reflexivity|]. simpl. split.
    + intros Hn. apply has_id_false in Hn. congruence.
    + intros pre d post Hd Hid Hpre.
      rewrite Hd, (update_first_split _ _ pre d post Hid Hpre).
      eexists. split; [reflexivity|]. split; [reflexivity|].
      intros k Hk. simpl. rewrite get_apply_set.
      rewrite get_rev_NoDup by now apply NoDup_keys_del.
      now rewrite get_del_other.
  - eexists. split; [reflexivity|]. simpl. split; [reflexivity|].
    intros pre d post Hd Hid Hpre. exfalso.
    apply has_id_false with (d := d) in E; [congruence|].
    rewrite Hd. apply in_or_app. right. now left.
Qed.

Lemma edit_strips_id_and_merges_witness :
  let data := [("_id", VStr Sample.mojito_id); ("taste", VStr "fresh");
               ("glass", VStr "highball")] in
  let updated := {| _id := IdOid 1%N;
                    attrs := [("name", VStr "Mojito"); ("taste", VStr "fresh");
                              ("glass", VStr "highball")] |} in
  edit data Sample.bar
  = (with_docs [Sample.margarita; updated]
       (called (UpdateOne 1%N [("taste", VStr "fresh"); ("glass", VStr "highball")])
          Sample.bar),
     Ok tt) /\
  exists c' d',
    edit data Sample.bar = (c', Ok tt) /\
    docs c' = [Sample.margarita] ++ d' :: [] /\
    _id d' = _id Sample.mojito /\
    forall k, k <> "_id" ->
      get k (attrs d') =
      match get k data with
      | Some v => Some v
      | None => get k (attrs Sample.mojito)
      end.
Proof.
  intros data updated. split; [reflexivity|].
  assert (ND : NoDup (keys data))
    by (simpl; repeat constructor; simpl; intuition discriminate).
  assert (Hs : Forall (fun k => settable_name k = true) (keys (del "_id" data)))
    by repeat constructor.
  destruct (proj2 (proj2 (proj2
              (edit_strips_id_and_merges data 1%N Sample.bar eq_refl ND))) Hs)
    as [c' [E [_ H]]].
  destruct (H [Sample.margarita] Sample.mojito [] eq_refl eq_refl) as [d' Hd'].
  - intros x [<-|[]]. discriminate.
  - exists c', d'. split; [exact E|]. exact Hd'.
Defined.

(* ================================================================== *)
(** * Identifiers that are malformed or missing *)





(* ================================================================== *)
(** * Creating *)

Lemma insertOne_generated :
  forall data c,
    no_own_id data -> pk_fresh c ->
    insertOne data c
    = ({| docs := docs c ++ [{| _id := IdOid (next_pk c); attrs := del "_id" data |}];
          next_pk := N.succ (next_pk c);
          oplog := InsertOne data :: oplog c |},
       Ok {| acknowledged := true; insertedId := IdOid (next_pk c) |}).
Proof.
  intros data c Hn Hf. unfold insertOne.
  assert (E : existsb (Id_eqb (IdOid (next_pk c))) (map _id (docs c)) = false).
  { apply has_id_false. intros d Hd Hid. apply (Hf d _ Hd) in Hid.
    now apply N.lt_irrefl in Hid. }
  destruct Hn as [-> | ->]; simpl; now rewrite E.
Qed.

Lemma insertOne_own_id :
  forall data v c,
    get "_id" data = Some v -> v <> VNull ->
    insertOne data c
    = if storable_id (IdVal v) && negb (existsb (Id_eqb (IdVal v)) (map _id (docs c)))
      then ({| docs := docs c ++ [{| _id := IdVal v; attrs := del "_id" data |}];
               next_pk := next_pk c;
               oplog := InsertOne data :: oplog c |},
            Ok {| acknowledged := true; insertedId := IdVal v |})
      else ({| docs := docs c; next_pk := next_pk c;
               oplog := InsertOne data :: oplog c |},
            Throw (MongoError
                     (if storable_id (IdVal v)
                      then "E11000 duplicate key error"
                      else "The '_id' value cannot be of this type"))).
Proof.
  intros data v c E Hv. unfold insertOne. rewrite E.
  destruct v; try congruence;
    destruct (storable_id _); simpl; try reflexivity;
    now destruct (existsb _ _).
Qed.

(** C5, as the code has it.  [POST /api/add] without a body or with an
    empty one is answered 400 and makes no call on the collection.  With
    a non-empty body that has no [_id] of its own it inserts the document
    under a generated identifier and answers 201 with the insert result
    that carries it.  With a body that has its own [_id] it inserts the
    document under that identifier and answers 201 when the collection
    takes it, and answers 500, nothing inserted, when the identifier is
    already in the collection or cannot be stored. *)
Theorem add_contract :
  forall req c,
    (body req = None \/ body req = Some [] ->
     api_add req c = (c, respond 400 (BError "Missing body"))) /\
    (forall data,
        body req = Some data -> data <> [] ->
        (no_own_id data -> pk_fresh c ->
         api_add req c
         = ({| docs := docs c ++ [{| _id := IdOid (next_pk c); attrs := del "_id" data |}];
               next_pk := N.succ (next_pk c);
               oplog := InsertOne data :: oplog c |},
            respond 201
              (BInserted {| acknowledged := true; insertedId := IdOid (next_pk c) |}))) /\
        (forall v,
            get "_id" data = Some v -> v <> VNull ->
            (storable_id (IdVal v) = true ->
             ~ In (IdVal v) (map _id (docs c)) ->
             api_add req c
             = ({| docs := docs c ++ [{| _id := IdVal v; attrs := del "_id" data |}];
                   next_pk := next_pk c;
                   oplog := InsertOne data :: oplog c |},
                respond 201
                  (BInserted {| acknowledged := true; insertedId := IdVal v |}))) /\
            (storable_id (IdVal v) = false \/ In (IdVal v) (map _id (docs c)) ->
             api_add req c
             = ({| docs := docs c; next_pk := next_pk c;
                   oplog := InsertOne data :: oplog c |},
                respond 500 (BError "Server error"))))).
Proof.
  intros req c. split.
  - unfold api_add. now intros [-> | ->].
  - intros data Hb Hne.
    assert (Hk : Nat.eqb (List.length (keys data)) 0 = false)
      by (destruct data; [congruence | reflexivity]).
    unfold api_add, add, bind, ret. rewrite Hb, Hk. split.
    + intros Hn Hf. now rewrite (insertOne_generated data c Hn Hf).
    + intros v E Hv. rewrite (insertOne_own_id data v c E Hv). split.
      * intros Hs Hin. rewrite Hs.
        assert (F : existsb (Id_eqb (IdVal v)) (map _id (docs c)) = false).
        { apply has_id_false. intros d Hd Hid. apply Hin. rewrite <- Hid.
          now apply in_map. }
        now rewrite F.
      * intros [Hs|Hin]; [now rewrite Hs|].
        assert (T : existsb (Id_eqb (IdVal v)) (map _id (docs c)) = true).
        { apply in_map_iff in Hin as [d [Hid Hd]]. apply has_id_spec. now exists d. }
        rewrite T, andb_false_r. reflexivity.
Qed.

Lemma add_contract_witness :
  let data := [("name", VStr "Daiquiri")] in
  api_add (Sample.request [] (Some data)) Sample.bar
  = ({| docs := docs Sample.bar
                ++ [{| _id := IdOid (next_pk Sample.bar); attrs := del "_id" data |}];
        next_pk := N.succ (next_pk Sample.bar);
        oplog := InsertOne data :: oplog Sample.bar |},
     respond 201
       (BInserted {| acknowledged := true;
                     insertedId := IdOid (next_pk Sample.bar) |})).
Proof.
  intros data.
  apply (proj1 (proj2 (add_contract (Sample.request [] (Some data)) Sample.bar)
                  data eq_refl ltac:(discriminate))).
  - now left.
  - intros d o [<-|[<-|[]]] E; injection E as <-; reflexivity.
Defined.

(** C5 as stated fails on a payload with its own [_id]: the same
    non-empty payload is inserted once under the identifier it carries,
    and the second time it is answered 500 and nothing is inserted. *)
Lemma add_twice_counterexample :
  let data := [("_id", VStr "mine"); ("name", VStr "Daiquiri")] in
  let req := Sample.request [] (Some data) in
  let stored := {| _id := IdVal (VStr "mine"); attrs := [("name", VStr "Daiquiri")] |} in
  let c1 := {| docs := docs Sample.bar ++ [stored];
               next_pk := next_pk Sample.bar;
               oplog := [InsertOne data] |} in
  api_add req Sample.bar
  = (c1, respond 201 (BInserted {| acknowledged := true;
                                   insertedId := IdVal (VStr "mine") |})) /\
  status (snd (api_add req c1)) = 500 /\
  docs (fst (api_add req c1)) = docs c1.
Proof.
  repeat split.
Qed.

(** C6, as the code has it.  The document [add] creates is stored under
    the identifier of the insert result, which is new to the collection.
    For a payload without an [_id] of its own it is the ObjectId the
    driver generates, whatever the payload holds; for a payload with its
    own [_id] it is that value. *)
Theorem stored_identifier_origin :
  forall data c c' r,
    add data c = (c', Ok r) ->
    exists d,
      docs c' = docs c ++ [d] /\
      _id d = insertedId r /\
      attrs d = del "_id" data /\
      ~ In (_id d) (map _id (docs c)) /\
      (no_own_id data -> insertedId r = IdOid (next_pk c)) /\
      (forall v, get "_id" data = Some v -> v <> VNull -> insertedId r = IdVal v).
Proof.
  intros data c c' r. unfold add, bind, ret, insertOne.
  destruct (match get "_id" data with
            | None | Some VNull => (IdOid (next_pk c), N.succ (next_pk c))
            | Some v => (IdVal v, next_pk c)
            end) as [id pk] eqn:Eid.
  destruct (negb (storable_id id)); [discriminate|].
  destruct (existsb (Id_eqb id) (map _id (docs c))) eqn:Ex; [discriminate|].
  intros H. injection H as <- <-. eexists. simpl.
  split; [reflexivity|]. split; [reflexivity|]. split; [reflexivity|]. split.
  - intros Hin. apply in_map_iff in Hin as [d [Hid Hd]].
    apply (proj1 (has_id_false id (docs c)) Ex d Hd Hid).
  - split.
    + intros [E|E]; rewrite E in Eid; now injection Eid as <- _.
    + intros v E Hv. rewrite E in Eid.
      destruct v; try congruence; now injection Eid as <- _.
Qed.

Lemma stored_identifier_origin_witness :
  let data := [("name", VStr "Daiquiri")] in
  exists d,
    docs (fst (add data Sample.bar)) = docs Sample.bar ++ [d] /\
    _id d = IdOid 2%N /\
    attrs d = del "_id" data /\
    ~ In (_id d) (map _id (docs Sample.bar)) /\
    (no_own_id data -> IdOid 2%N = IdOid (next_pk Sample.bar)) /\
    (forall v, get "_id" data = Some v -> v <> VNull -> IdOid 2%N = IdVal v).
Proof.
  intros data.
  apply (stored_identifier_origin data Sample.bar (fst (add data Sample.bar))
           {| acknowledged := true; insertedId := IdOid 2%N |}).
  reflexivity.
Defined.

(** C6 as stated fails on a payload with its own [_id]: the identifier
    stored for the new document is the one the client sent. *)
Lemma client_identifier_counterexample :
  let data := [("_id", VStr "mine"); ("name", VStr "Daiquiri")] in
  let stored := {| _id := IdVal (VStr "mine"); attrs := [("name", VStr "Daiquiri")] |} in
  exists c',
    add data Sample.bar
    = (c', Ok {| acknowledged := true; insertedId := IdVal (VStr "mine") |}) /\
    docs c' = docs Sample.bar ++ [stored] /\
    get "_id" data = Some (VStr "mine") /\
    _id stored = IdVal (VStr "mine").
Proof.
  eexists. repeat split.
Qed.

(* ================================================================== *)
(** * The end points on valid identifiers *)

(** A value that spells an ObjectId is truthy: the guards of the end
    points let it through. *)
Lemma valid_id_is_truthy :
  forall v oid, ObjectId.new (String_of v) = Some oid -> truthy v = true.
Proof.
  intros [[| [|] | r | s | l | o]|] oid; simpl; try discriminate; try reflexivity.
  - destruct (String.eqb r "0") eqn:E; [|reflexivity].
    apply String.eqb_eq in E. subst. discriminate.
  - destruct (String.eqb s "") eqn:E; [|reflexivity].
    apply String.eqb_eq in E. subst. discriminate.
Qed.

Lemma api_delete_valid :
  forall req data oid c,
    body req = Some data ->
    ObjectId.new (String_of (get "id" data)) = Some oid ->
    exists r,
      remove data c = (fst (remove data c), Ok r) /\
      api_delete req c = (fst (remove data c), respond 200 (BDeleted r)).
Proof.
  intros req data oid c Hb Hv. unfold api_delete.
  assert (V : ObjectId.isValid (String_of (get "id" data)) = true)
    by (unfold ObjectId.isValid; now rewrite Hv).
  rewrite Hb, (valid_id_is_truthy _ _ Hv). simpl.
  unfold remove, new_ObjectId. rewrite V, Hv.
  unfold bind, ret, deleteOne. cbn [negb]. cbv iota beta.
  destruct (existsb _ _); eexists; split; reflexivity.
Qed.

(** The flag of a page that [GET /api/get-items] answers is relative to
    the limit the end point computed. *)
(* ================================================================== *)
(** * The invariants of the collection *)

Lemma find_docs :
  forall cursor_window q s l c,
    docs (fst (find cursor_window q s l c)) = docs c /\
    next_pk (fst (find cursor_window q s l c)) = next_pk c.
Proof.
  intros cursor_window q s l c. unfold find.
  destruct (in_conditions q); [|now split].
  now destruct (cursor_window _ _ _).
Qed.

Lemma find_text_docs :
  forall cursor_window text_search q s l c,
    docs (fst (find_text cursor_window text_search q s l c)) = docs c /\
    next_pk (fst (find_text cursor_window text_search q s l c)) = next_pk c.
Proof.
  intros cursor_window text_search q s l c. unfold find_text.
  destruct (text_search q (docs c)); [|now split].
  now destruct (cursor_window _ _ _).
Qed.

Lemma consistent_same :
  forall c c',
    docs c' = docs c -> next_pk c' = next_pk c -> consistent c -> consistent c'.
Proof.
  intros c c' Hd Hp [U F]. split.
  - unfold unique_ids. now rewrite Hd.
  - intros d o. rewrite Hd, Hp. apply F.
Qed.

Lemma NoDup_snoc :
  forall (A : Type) (x : A) (l : list A),
    NoDup l -> ~ In x l -> NoDup (l ++ [x]).
Proof.
  intros A x l. induction l as [|y l IH]; simpl; intros ND Hn.
  - constructor; [intros [] | constructor].
  - inversion ND as [|? ? Hy ND']; subst. constructor.
    + intros Hin. apply in_app_or in Hin as [Hin|[<-|[]]]; [contradiction|].
      apply Hn. now left.
    + apply IH; [assumption|]. intros H. apply Hn. now right.
Qed.

Lemma insertOne_consistent :
  forall data c, consistent c -> consistent (fst (insertOne data c)).
Proof.
  intros data c [U F]. unfold insertOne.
  destruct (match get "_id" data with
            | None | Some VNull => (IdOid (next_pk c), N.succ (next_pk c))
            | Some v => (IdVal v, next_pk c)
            end) as [id pk] eqn:Eid.
  assert (Hpk : (next_pk c <= pk)%N /\ forall o, id = IdOid o -> (o < pk)%N).
  { destruct (get "_id" data) as [[]|]; injection Eid as <- <-;
      (split; [try apply N.le_refl; apply N.le_succ_diag_r|]);
      intros o E; try discriminate; injection E as <-; apply N.lt_succ_diag_r. }
  destruct Hpk as [Hle Hid].
  assert (F' : forall d o, In d (docs c) -> _id d = IdOid o -> (o < pk)%N).
  { intros d o Hd E. apply N.lt_le_trans with (next_pk c); [|assumption].
    now apply (F d). }
  destruct (negb (storable_id id)); simpl; [now split|].
  destruct (existsb (Id_eqb id) (map _id (docs c))) eqn:Ex; simpl; [now split|].
  split.
  - unfold unique_ids. simpl. rewrite map_app. simpl.
    apply NoDup_snoc; [exact U|].
    intros Hin. apply in_map_iff in Hin as [d [E Hd]].
    apply (proj1 (has_id_false id (docs c)) Ex d Hd E).
  - intros d o. simpl. intros Hin E. apply in_app_or in Hin as [Hin|[<-|[]]].
    + now apply (F' d).
    + now apply Hid.
Qed.

Lemma updateOne_consistent :
  forall oid upd c, consistent c -> consistent (fst (updateOne oid upd c)).
Proof.
  intros oid upd c [U F].
  destruct (updateOne_ids oid upd c) as [Hi Hp]. split.
  - unfold unique_ids. now rewrite Hi.
  - intros d o Hin E. rewrite Hp.
    assert (H : In (_id d) (map _id (docs c)))
      by (rewrite <- Hi; now apply in_map).
    apply in_map_iff in H as [d0 [E0 Hd0]]. apply (F d0); congruence.
Qed.

Lemma deleteOne_consistent :
  forall oid c, consistent c -> consistent (fst (deleteOne oid c)).
Proof.
  intros oid c [U F]. unfold deleteOne.
  destruct (existsb _ _); [|now split]. split.
  - unfold unique_ids. simpl. now apply remove_first_NoDup.
  - intros d o. simpl. intros Hin. apply (F d).
    now apply (remove_first_incl (IdOid oid)).
Qed.

(** Every end point keeps the invariants of the collection: the
    identifiers stay unique and older than the next generated key. *)
Lemma end_points_keep_consistent :
  forall Number_of_text JSON_parse cursor_window text_search req c,
    consistent c ->
    consistent (fst (api_get_items Number_of_text JSON_parse cursor_window req c)) /\
    consistent (fst (api_search Number_of_text cursor_window text_search req c)) /\
    consistent (fst (api_add req c)) /\
    consistent (fst (api_edit req c)) /\
    consistent (fst (api_delete req c)).
Proof.
  intros Number_of_text JSON_parse cursor_window text_search req c H.
  refine (conj _ (conj _ (conj _ (conj _ _)))).
  - unfold api_get_items, getItems, bind, lift, ret.
    destruct (parseFilters JSON_parse _) as [q|e]; [|exact H].
    match goal with
    | |- context [find _ q ?s ?l c] =>
        destruct (find_docs cursor_window q s l c) as [Hd Hp];
        destruct (find cursor_window q s l c) as [c1 [r|e]]
    end; simpl in *; now apply (consistent_same c).
  - unfold api_search.
    destruct (String.eqb _ ""); [exact H|].
    unfold getItemsByName, bind, ret.
    match goal with
    | |- context [find_text _ _ ?q ?s ?l c] =>
        destruct (find_text_docs cursor_window text_search q s l c) as [Hd Hp];
        destruct (find_text cursor_window text_search q s l c) as [c1 [r|e]]
    end; simpl in *; now apply (consistent_same c).
  - unfold api_add. destruct (body req) as [data|]; [|exact H].
    destruct (Nat.eqb _ 0); [exact H|].
    unfold add, bind, ret.
    pose proof (insertOne_consistent data c H) as K.
    now destruct (insertOne data c) as [c1 [r|e]].
  - unfold api_edit. destruct (body req) as [data|]; [|exact H].
    destruct (negb _); [exact H|].
    unfold edit, new_ObjectId. destruct (negb (ObjectId.isValid _)); [exact H|].
    unfold bind, throw, ret. destruct (ObjectId.new _) as [oid|]; [|exact H].
    pose proof (updateOne_consistent oid (del "_id" data) c H) as K.
    now destruct (updateOne oid (del "_id" data) c) as [c1 [r|e]].
  - unfold api_delete. destruct (body req) as [data|]; [|exact H].
    destruct (negb _); [exact H|].
    unfold remove, new_ObjectId. destruct (negb (ObjectId.isValid _)); [exact H|].
    unfold bind, throw, ret. destruct (ObjectId.new _) as [oid|]; [|exact H].
    pose proof (deleteOne_consistent oid c H) as K.
    now destruct (deleteOne oid c) as [c1 [r|e]].
Qed.

Lemma empty_consistent : consistent Sample.empty.
Proof.
  split; [constructor | intros d o []].
Qed.

(* ================================================================== *)
(** * Filters that cannot be read *)

Lemma prepareFilters_null :
  forall fs acc, In VNull fs -> exists e, prepareFilters fs acc = Throw e.
Proof.
  induction fs as [|f fs IH]; intros acc Hin; [contradiction|].
  destruct f; simpl; try (eexists; reflexivity);
    (destruct Hin as [E|Hin]; [discriminate | now apply IH]).
Qed.

(** X1. [GET /api/get-items] with a filter text that [JSON.parse]
    rejects, that parses to [null], or whose filters include [null], is
    answered 500 and makes no call on the collection. *)
Theorem unreadable_filters_are_500_before_any_call :
  forall Number_of_text JSON_parse cursor_window req c text,
    get "filters" (query req) = Some text ->
    text <> "" ->
    JSON_parse text = None \/
    (exists v, JSON_parse text = Some v /\
               (Object_values v = None \/
                exists fs, Object_values v = Some fs /\ In VNull fs)) ->
    api_get_items Number_of_text JSON_parse cursor_window req c
    = (c, respond 500 (BError "Server error")).
Proof.
  intros Number_of_text JSON_parse cursor_window req c text Hf Ht H.
  unfold api_get_items, getItems, bind, lift, parseFilters.
  apply String.eqb_neq in Ht. rewrite Hf, Ht.
  destruct H as [-> | [v [-> [-> | [fs [-> Hin]]]]]]; try reflexivity.
  destruct (prepareFilters_null fs [] Hin) as [e ->]. reflexivity.
Qed.

Lemma unreadable_filters_are_500_before_any_call_witness :
  api_get_items Sample.Number_of_text Sample.JSON_parse Sample.cursor_window
    (Sample.request [("filters", "{not json")] None) Sample.bar
  = (Sample.bar, respond 500 (BError "Server error")).
Proof.
  apply (unreadable_filters_are_500_before_any_call
           Sample.Number_of_text Sample.JSON_parse Sample.cursor_window
           (Sample.request [("filters", "{not json")] None) Sample.bar
           "{not json").
  - reflexivity.
  - discriminate.
  - left. reflexivity.
Defined.

(* ================================================================== *)
(** * The calls of the end points *)

Lemma cons_neq_self : forall (A : Type) (x : A) (l : list A), l <> x :: l.
Proof.
  intros A x l E. apply (f_equal (@List.length A)) in E. simpl in E.
  now apply n_Sn in E.
Qed.

Section Calls.
Variable Number_of_text : string -> number.
Variable JSON_parse : string -> option Value.
Variable cursor_window : number -> number -> list Doc -> option (list Doc).
Variable text_search : string -> list Doc -> option (list Doc).

Lemma find_state :
  forall q s l c, fst (find cursor_window q s l c) = called (Find q s l) c.
Proof.
  intros q s l c. unfold find.
  destruct (in_conditions q); [|reflexivity].
  now destruct (cursor_window _ _ _).
Qed.

Lemma find_text_state :
  forall q s l c,
    fst (find_text cursor_window text_search q s l c) = called (FindText q s l) c.
Proof.
  intros q s l c. unfold find_text.
  destruct (text_search q (docs c)); [|reflexivity].
  now destruct (cursor_window _ _ _).
Qed.

Lemma getItems_state :
  forall pagination limit filters c,
    let c' := fst (getItems JSON_parse cursor_window pagination limit filters c) in
    c' = c \/ exists q, c' = called (Find q pagination (limit_or_default limit)) c.
Proof.
  intros pagination limit filters c. unfold getItems, bind, lift, ret.
  destruct (parseFilters JSON_parse filters) as [q|e]; simpl; [|now left].
  right. exists q. rewrite <- find_state.
  now destruct (find cursor_window q pagination (limit_or_default limit) c)
    as [c1 [r|e]].
Qed.

Lemma getItemsByName_state :
  forall pagination limit search c,
    fst (getItemsByName cursor_window text_search pagination limit search c)
    = called (FindText search pagination (limit_or_default limit)) c.
Proof.
  intros pagination limit search c. unfold getItemsByName, bind, ret.
  rewrite <- find_text_state.
  now destruct (find_text cursor_window text_search search pagination
                  (limit_or_default limit) c) as [c1 [r|e]].
Qed.

Lemma api_get_items_state :
  forall req c,
    let c' := fst (api_get_items Number_of_text JSON_parse cursor_window req c) in
    c' = c \/ exists q s l, c' = called (Find q s l) c.
Proof.
  intros req c. unfold api_get_items.
  match goal with
  | |- context [getItems _ _ ?p ?l ?f c] =>
      pose proof (getItems_state p l f c) as H;
      destruct (getItems JSON_parse cursor_window p l f c) as [c1 [page|e]]
  end; simpl in *;
    (destruct H as [H|[q H]]; [now left | right; eauto]).
Qed.

Lemma api_search_state :
  forall req c,
    let c' := fst (api_search Number_of_text cursor_window text_search req c) in
    c' = c \/ exists q s l, c' = called (FindText q s l) c.
Proof.
  intros req c. unfold api_search.
  destruct (String.eqb _ ""); simpl; [now left|]. right.
  match goal with
  | |- context [getItemsByName _ _ ?p ?l ?s c] =>
      pose proof (getItemsByName_state p l s c) as H;
      destruct (getItemsByName cursor_window text_search p l s c) as [c1 [page|e]]
  end; simpl in *; eauto.
Qed.
End Calls.

(** X2. The two query end points only read: after [GET /api/get-items]
    or [GET /api/search] the collection is as it was, but for at most one
    logged [find]; whatever the request, no document is added, changed
    or removed. *)
Theorem query_end_points_only_read :
  forall Number_of_text JSON_parse cursor_window text_search req c,
    (let c' := fst (api_get_items Number_of_text JSON_parse cursor_window req c) in
     (c' = c \/ exists q s l, c' = called (Find q s l) c) /\
     docs c' = docs c /\ next_pk c' = next_pk c) /\
    (let c' := fst (api_search Number_of_text cursor_window text_search req c) in
     (c' = c \/ exists q s l, c' = called (FindText q s l) c) /\
     docs c' = docs c /\ next_pk c' = next_pk c).
Proof.
  intros Number_of_text JSON_parse cursor_window text_search req c. split.
  - pose proof (api_get_items_state Number_of_text JSON_parse cursor_window req c) as H.
    simpl in *. split; [exact H|].
    destruct H as [-> | [q [s [l ->]]]]; now split.
  - pose proof (api_search_state Number_of_text cursor_window text_search req c) as H.
    simpl in *. split; [exact H|].
    destruct H as [-> | [q [s [l ->]]]]; now split.
Qed.

(** The writing end points make a call on the collection exactly when
    the request passes their checks, and one call only. *)
Lemma insertOne_oplog :
  forall data c, oplog (fst (insertOne data c)) = InsertOne data :: oplog c.
Proof.
  intros data c. unfold insertOne.
  destruct (match get "_id" data with
            | None | Some VNull => (IdOid (next_pk c), N.succ (next_pk c))
            | Some v => (IdVal v, next_pk c)
            end) as [id pk].
  destruct (negb (storable_id id)); [reflexivity|].
  now destruct (existsb _ _).
Qed.

Lemma deleteOne_oplog :
  forall oid c, oplog (fst (deleteOne oid c)) = DeleteOne oid :: oplog c.
Proof.
  intros oid c. unfold deleteOne. now destruct (existsb _ _).
Qed.

Lemma isValid_new :
  forall s, ObjectId.isValid s = true <-> exists oid, ObjectId.new s = Some oid.
Proof.
  intros s. unfold ObjectId.isValid. destruct (ObjectId.new s) as [oid|].
  - split; [now exists oid | reflexivity].
  - split; [discriminate | intros [oid E]; discriminate].
Qed.

Lemma edit_oplog :
  forall data c,
    match ObjectId.new (String_of (get "_id" data)) with
    | Some oid =>
        oplog (fst (edit data c)) = UpdateOne oid (del "_id" data) :: oplog c
    | None => edit data c = (c, Throw (Error "Invalid id"))
    end.
Proof.
  intros data c. unfold edit, new_ObjectId, ObjectId.isValid.
  destruct (ObjectId.new (String_of (get "_id" data))) as [oid|]; [|reflexivity].
  cbn [negb]. cbv iota. unfold bind, ret.
  pose proof (updateOne_oplog oid (del "_id" data) c) as H.
  now destruct (updateOne oid (del "_id" data) c) as [c1 [r|e]].
Qed.

Lemma remove_oplog :
  forall data c,
    match ObjectId.new (String_of (get "id" data)) with
    | Some oid => oplog (fst (remove data c)) = DeleteOne oid :: oplog c
    | None => remove data c = (c, Throw (Error "Invalid id"))
    end.
Proof.
  intros data c. unfold remove, new_ObjectId, ObjectId.isValid.
  destruct (ObjectId.new (String_of (get "id" data))) as [oid|]; [|reflexivity].
  cbn [negb]. cbv iota. unfold bind, ret.
  pose proof (deleteOne_oplog oid c) as H.
  now destruct (deleteOne oid c) as [c1 [r|e]].
Qed.

(** X3. A writing end point calls the collection exactly when the
    request passes its checks, once, with the operation of the end point:
    [POST /api/add] inserts the body when it is not empty; [PUT /api/edit]
    and [DELETE /api/delete] update or delete by the ObjectId that the
    identifier of the body spells, the update being the body without
    [_id]; in every other case the collection is not touched. *)
Theorem writing_end_points_call_once :
  forall req c,
    (match body req with
     | Some (p :: data) =>
         oplog (fst (api_add req c)) = InsertOne (p :: data) :: oplog c
     | _ => fst (api_add req c) = c
     end) /\
    (match body req with
     | Some data =>
         match ObjectId.new (String_of (get "_id" data)) with
         | Some oid =>
             oplog (fst (api_edit req c))
             = UpdateOne oid (del "_id" data) :: oplog c
         | None => fst (api_edit req c) = c
         end
     | None => fst (api_edit req c) = c
     end) /\
    (match body req with
     | Some data =>
         match ObjectId.new (String_of (get "id" data)) with
         | Some oid => oplog (fst (api_delete req c)) = DeleteOne oid :: oplog c
         | None => fst (api_delete req c) = c
         end
     | None => fst (api_delete req c) = c
     end).
Proof.
  intros req c. refine (conj _ (conj _ _)).
  - unfold api_add. destruct (body req) as [[|p data]|]; try reflexivity.
    simpl Nat.eqb. cbv iota. unfold add, bind, ret.
    pose proof (insertOne_oplog (p :: data) c) as H.
    now destruct (insertOne (p :: data) c) as [c1 [r|e]].
  - unfold api_edit. destruct (body req) as [data|]; [|reflexivity].
    pose proof (edit_oplog data c) as H.
    destruct (ObjectId.new (String_of (get "_id" data))) as [oid|] eqn:E.
    + rewrite (valid_id_is_truthy _ _ E). simpl negb. cbv iota.
      now destruct (edit data c) as [c1 [r|e]].
    + destruct (negb (truthy (get "_id" data))); [reflexivity|].
      now rewrite H.
  - unfold api_delete. destruct (body req) as [data|]; [|reflexivity].
    pose proof (remove_oplog data c) as H.
    destruct (ObjectId.new (String_of (get "id" data))) as [oid|] eqn:E.
    + rewrite (valid_id_is_truthy _ _ E). simpl negb. cbv iota.
      now destruct (remove data c) as [c1 [r|e]].
    + destruct (negb (truthy (get "id" data))); [reflexivity|].
      now rewrite H.
Qed.

(* ================================================================== *)
(** * The window of a query *)

Lemma window_of_computed :
  forall (p l : number) (cap : Z),
    (10 <= cap)%Z ->
    window_of p l cap
      (number_or p (Num 0))
      (Math_min (number_or l (Num 10)) (Num (inject_Z cap))).
Proof.
  intros p l cap Hcap. unfold window_of, number_or.
  assert (H10 : Qle_bool 10 (inject_Z cap) = true).
  { apply Qle_bool_iff. change 10%Q with (inject_Z 10).
    now rewrite <- Zle_Qle. }
  refine (conj _ (conj _ (conj _ (conj _ (conj _ (conj _ _)))))).
  - now intros ->.
  - now intros ->.
  - intros ->. simpl. now rewrite H10.
  - intros x -> Hx Hle. simpl.
    destruct (Qeq_bool x 0) eqn:E; [now apply Qeq_bool_iff in E|]. simpl.
    apply Qle_bool_iff in Hle. now rewrite Hle.
  - intros x -> Hlt. simpl.
    assert (Hle : Qle_bool x (inject_Z cap) = false).
    { destruct (Qle_bool x (inject_Z cap)) eqn:E; [|reflexivity].
      apply Qle_bool_iff in E. exfalso. revert E. now apply Qlt_not_le. }
    destruct (Qeq_bool x 0) eqn:E; simpl; [|now rewrite Hle].
    exfalso. apply Qeq_bool_iff in E. rewrite E in Hlt.
    apply Qlt_not_le in Hlt. apply Hlt.
    apply Qle_trans with 10%Q; [discriminate | now apply Qle_bool_iff].
  - now intros ->.
  - now intros ->.
Qed.

(** X4. The window [GET /api/get-items] and [GET /api/search] pass to the
    collection: the skip is the number [pagination] spells, or 0 when
    that is missing, not a number or 0; the limit is the number [limit]
    spells when it is at most the cap of the end point (100, 20), the cap
    when it is more, and 10 when it is missing, not a number or 0. *)
Theorem window_defaults_and_cap :
  forall Number_of_text JSON_parse cursor_window text_search req c,
    let p := Number Number_of_text (get "pagination" (query req)) in
    let l := Number Number_of_text (get "limit" (query req)) in
    (forall q s lim,
        oplog (fst (api_get_items Number_of_text JSON_parse cursor_window req c))
        = Find q s lim :: oplog c ->
        window_of p l 100 s lim) /\
    (forall q s lim,
        oplog (fst (api_search Number_of_text cursor_window text_search req c))
        = FindText q s lim :: oplog c ->
        window_of p l 20 s lim).
Proof.
  intros Number_of_text JSON_parse cursor_window text_search req c p l.
  split; intros q s lim H.
  - unfold api_get_items in H.
    match type of H with
    | context [getItems _ _ ?a ?b ?f c] =>
        pose proof (getItems_oplog JSON_parse cursor_window a b f c) as G;
        destruct (getItems JSON_parse cursor_window a b f c) as [c1 [page|e]]
    end; simpl in *;
      (destruct G as [G|[q' G]]; rewrite G in H;
       [now apply cons_neq_self in H |
        injection H as _ <- <-; now apply (window_of_computed p l 100)]).
  - unfold api_search in H.
    destruct (String.eqb _ "") eqn:E; simpl in H;
      [now apply cons_neq_self in H|].
    match type of H with
    | context [getItemsByName _ _ ?a ?b ?f c] =>
        pose proof (getItemsByName_oplog cursor_window text_search a b f c) as G;
        destruct (getItemsByName cursor_window text_search a b f c) as [c1 [page|e]]
    end; simpl in *; rewrite G in H;
      injection H as _ <- <-; now apply (window_of_computed p l 20).
Qed.

Lemma window_defaults_and_cap_witness :
  window_of (Sample.Number_of_text "2") (Sample.Number_of_text "500") 100
    (Num 2) (Num 100).
Proof.
  apply (proj1 (window_defaults_and_cap
                  Sample.Number_of_text Sample.JSON_parse Sample.cursor_window
                  Sample.text_search
                  (Sample.request [("pagination", "2"); ("limit", "500")] None)
                  Sample.bar) [] (Num 2) (Num 100)).
  reflexivity.
Defined.

(* ================================================================== *)
(** * Listing without filters *)

Lemma filter_matches_nil : forall ds, List.filter (matches []) ds = ds.
Proof.
  induction ds as [|d ds IH]; simpl; [reflexivity | now rewrite IH].
Qed.

(** X5. Without filters (the parameter missing or empty) [getItems]
    queries with the empty filter, which every document matches: the
    page is the cursor's window on all the documents of the collection,
    in their order. *)
Theorem no_filters_pages_whole_collection :
  forall JSON_parse cursor_window pagination limit filters c,
    filters = None \/ filters = Some "" ->
    getItems JSON_parse cursor_window pagination limit filters c
    = (called (Find [] pagination (limit_or_default limit)) c,
       match cursor_window pagination (limit_or_default limit) (docs c) with
       | Some r =>
           Ok {| items := r;
                 isEndOfCollection :=
                   number_lt (num_of_nat (List.length r)) (limit_or_default limit) |}
       | None => Throw (MongoError "cursor")
       end).
Proof.
  intros JSON_parse cursor_window pagination limit filters c [-> | ->];
    unfold getItems, bind, lift, ret, parseFilters, find; simpl;
    rewrite filter_matches_nil;
    now destruct (cursor_window pagination (limit_or_default limit) (docs c)).
Qed.

Lemma no_filters_pages_whole_collection_witness :
  getItems Sample.JSON_parse Sample.cursor_window (Num 1) None (Some "") Sample.bar
  = (called (Find [] (Num 1) (Num 10)) Sample.bar,
     Ok {| items := [Sample.mojito]; isEndOfCollection := true |}).
Proof.
  apply (no_filters_pages_whole_collection
           Sample.JSON_parse Sample.cursor_window (Num 1) None (Some "") Sample.bar).
  now right.
Defined.

(* ================================================================== *)
(** * Requests that are refused *)

(** X6. An end point on the collection answers 400 exactly when its check
    of the request fails (no search text; no body or an empty one; no
    body or a falsy identifier), and then it leaves the collection as it
    was; [GET /api/get-items] never answers 400. *)
Theorem refused_exactly_when_check_fails :
  forall Number_of_text JSON_parse cursor_window text_search req c,
    status (snd (api_get_items Number_of_text JSON_parse cursor_window req c)) <> 400 /\
    (let r := api_search Number_of_text cursor_window text_search req c in
     (status (snd r) = 400 <->
      get "search" (query req) = None \/ get "search" (query req) = Some "") /\
     (status (snd r) = 400 -> fst r = c)) /\
    (let r := api_add req c in
     (status (snd r) = 400 <-> body req = None \/ body req = Some []) /\
     (status (snd r) = 400 -> fst r = c)) /\
    (let r := api_edit req c in
     (status (snd r) = 400 <->
      body req = None \/
      exists data, body req = Some data /\ truthy (get "_id" data) = false) /\
     (status (snd r) = 400 -> fst r = c)) /\
    (let r := api_delete req c in
     (status (snd r) = 400 <->
      body req = None \/
      exists data, body req = Some data /\ truthy (get "id" data) = false) /\
     (status (snd r) = 400 -> fst r = c)).
Proof.
  intros Number_of_text JSON_parse cursor_window text_search req c.
  refine (conj _ (conj _ (conj _ (conj _ _)))).
  - unfold api_get_items.
    match goal with
    | |- context [getItems _ _ ?a ?b ?f c] =>
        destruct (getItems JSON_parse cursor_window a b f c) as [c1 [page|e]]
    end; simpl; discriminate.
  - unfold api_search.
    destruct (get "search" (query req)) as [s|] eqn:Es.
    + destruct (String.eqb s "") eqn:E.
      * apply String.eqb_eq in E. subst. simpl. repeat split; auto.
      * apply String.eqb_neq in E.
        match goal with
        | |- context [getItemsByName _ _ ?a ?b ?f c] =>
            destruct (getItemsByName cursor_window text_search a b f c)
              as [c1 [page|e]]
        end; simpl; (split; [split|]; try discriminate;
                     intros [H|H]; [discriminate | congruence]).
    + simpl. repeat split; auto.
  - unfold api_add. destruct (body req) as [[|p data]|]; simpl.
    + repeat split; auto.
    + unfold add, bind, ret.
      destruct (insertOne (p :: data) c) as [c1 [r|e]]; simpl;
        (split; [split|]; try discriminate; intros [H|H]; discriminate).
    + repeat split; auto.
  - unfold api_edit. destruct (body req) as [data|]; simpl.
    + destruct (truthy (get "_id" data)) eqn:T; simpl.
      * destruct (edit data c) as [c1 [r|e]]; simpl;
          (split; [split|]; try discriminate;
           intros [H|[d [H T']]]; [discriminate | congruence]).
      * split; [split|]; auto. intros _. right. now exists data.
    + repeat split; auto.
  - unfold api_delete. destruct (body req) as [data|]; simpl.
    + destruct (truthy (get "id" data)) eqn:T; simpl.
      * destruct (remove data c) as [c1 [r|e]]; simpl;
          (split; [split|]; try discriminate;
           intros [H|[d [H T']]]; [discriminate | congruence]).
      * split; [split|]; auto. intros _. right. now exists data.
    + repeat split; auto.
Qed.

(* ================================================================== *)
(** * Requests that fail *)

Lemma insertOne_docs :
  forall data c c' r,
    insertOne data c = (c', r) ->
    match r with
    | Ok _ => exists d, docs c' = docs c ++ [d]
    | Throw _ => docs c' = docs c
    end.
Proof.
  intros data c c' r. unfold insertOne.
  destruct (match get "_id" data with
            | None | Some VNull => (IdOid (next_pk c), N.succ (next_pk c))
            | Some v => (IdVal v, next_pk c)
            end) as [id pk].
  destruct (negb (storable_id id)); [now intros [= <- <-]|].
  destruct (existsb _ _); intros [= <- <-]; [reflexivity|].
  eexists. reflexivity.
Qed.

(** X7. A request that an end point on the collection answers with an
    error status (400 or 500) leaves the documents of the collection as
    they were. *)
Theorem error_answers_change_no_document :
  forall Number_of_text JSON_parse cursor_window text_search r req c,
    400 <= status (snd (serve Number_of_text JSON_parse cursor_window text_search r req c)) ->
    docs (fst (serve Number_of_text JSON_parse cursor_window text_search r req c))
    = docs c.
Proof.
  intros Number_of_text JSON_parse cursor_window text_search r req c.
  destruct r; simpl.
  - intros _.
    destruct (api_get_items_state Number_of_text JSON_parse cursor_window req c)
      as [-> | [q [s [l ->]]]]; reflexivity.
  - intros _.
    destruct (api_search_state Number_of_text cursor_window text_search req c)
      as [-> | [q [s [l ->]]]]; reflexivity.
  - unfold api_add. destruct (body req) as [data|]; [|reflexivity].
    destruct (Nat.eqb _ 0); [reflexivity|]. unfold add, bind, ret.
    destruct (insertOne data c) as [c1 [res|e]] eqn:E; simpl.
    + intros H. exfalso. revert H. apply Nat.lt_nge. repeat constructor.
    + intros _. apply (insertOne_docs data c c1 (Throw e) E).
  - unfold api_edit. destruct (body req) as [data|]; [|reflexivity].
    destruct (negb _); [reflexivity|].
    unfold edit, new_ObjectId, bind, throw, ret.
    destruct (negb (ObjectId.isValid _)); [reflexivity|].
    destruct (ObjectId.new _) as [oid|]; [|reflexivity].
    unfold updateOne.
    destruct (existsb refused_path _); [reflexivity|].
    destruct (existsb _ (map _id (docs c))); simpl; [|intros H].
    + destruct (existsb refused_on_document _); simpl; intros H;
        [reflexivity|].
      exfalso. revert H. apply Nat.lt_nge. repeat constructor.
    + reflexivity.
  - unfold api_delete. destruct (body req) as [data|]; [|reflexivity].
    destruct (negb _); [reflexivity|].
    unfold remove, new_ObjectId, bind, throw, ret.
    destruct (negb (ObjectId.isValid _)); [reflexivity|].
    destruct (ObjectId.new _) as [oid|]; [|reflexivity].
    unfold deleteOne.
    destruct (existsb _ _); simpl; intros H; try reflexivity.
    exfalso. revert H. apply Nat.lt_nge. repeat constructor.
Qed.

Lemma error_answers_change_no_document_witness :
  docs (fst (serve Sample.Number_of_text Sample.JSON_parse Sample.cursor_window
               Sample.text_search Edit
               (Sample.request [] (Some [("_id", VStr "bad"); ("name", VStr "x")]))
               Sample.bar))
  = docs Sample.bar.
Proof.
  apply (error_answers_change_no_document
           Sample.Number_of_text Sample.JSON_parse Sample.cursor_window
           Sample.text_search Edit
           (Sample.request [] (Some [("_id", VStr "bad"); ("name", VStr "x")]))
           Sample.bar).
  simpl. repeat constructor.
Defined.

(* ================================================================== *)
(** * Identifiers that no document has *)

(** X8. An identifier that is valid and that no document of the
    collection has is not an error: [PUT /api/edit] (its field names
    being names [$set] takes) answers 200 with the message of a
    successful update, [DELETE /api/delete] answers 200 with a deleted
    count of zero, and the documents stay as they were. *)
Theorem unknown_identifier_is_answered_200 :
  forall req data oid c,
    body req = Some data ->
    (forall d, In d (docs c) -> _id d <> IdOid oid) ->
    (ObjectId.new (String_of (get "_id" data)) = Some oid ->
     Forall (fun k => settable_name k = true) (keys (del "_id" data)) ->
     api_edit req c
     = (called (UpdateOne oid (del "_id" data)) c,
        respond 200 (BMessage "Item updated successfully"))) /\
    (ObjectId.new (String_of (get "id" data)) = Some oid ->
     api_delete req c
     = (called (DeleteOne oid) c,
        respond 200 (BDeleted {| deletedCount := 0 |}))).
Proof.
  intros req data oid c Hb Hn.
  apply has_id_false in Hn. split.
  - intros Hv Hs.
    unfold api_edit. rewrite Hb, (valid_id_is_truthy _ _ Hv).
    cbn [negb]. cbv iota beta.
    rewrite (edit_valid data oid c Hv), (updateOne_settable oid data c Hs), Hn.
    reflexivity.
  - intros Hv.
    assert (V : ObjectId.isValid (String_of (get "id" data)) = true)
      by (apply isValid_new; now exists oid).
    unfold api_delete. rewrite Hb, (valid_id_is_truthy _ _ Hv).
    unfold remove, new_ObjectId. rewrite V, Hv.
    unfold bind, ret, deleteOne. cbn [negb]. cbv iota beta.
    now rewrite Hn.
Qed.

Lemma unknown_identifier_is_answered_200_witness :
  let data := [("id", VStr "00000000000000000000000f")] in
  api_delete (Sample.request [] (Some data)) Sample.bar
  = (called (DeleteOne 15%N) Sample.bar,
     respond 200 (BDeleted {| deletedCount := 0 |})).
Proof.
  intros data.
  apply (proj2 (unknown_identifier_is_answered_200
                  (Sample.request [] (Some data)) data 15%N Sample.bar
                  eq_refl
                  ltac:(intros d [<-|[<-|[]]]; discriminate))).
  reflexivity.
Defined.

(* ================================================================== *)
(** * Creating, then deleting *)

(** X9. Creating and deleting compose to nothing: after [POST /api/add]
    of a payload without an [_id] of its own, [DELETE /api/delete] with
    the identifier that the insert result carries is answered 200 with a
    deleted count of one, and the documents of the collection are again
    what they were before the creation. *)
Theorem add_then_delete_restores_documents :
  forall req data req' data' c,
    body req = Some data -> data <> [] -> no_own_id data ->
    pk_fresh c ->
    body req' = Some data' ->
    ObjectId.new (String_of (get "id" data')) = Some (next_pk c) ->
    exists c1 c2,
      api_add req c
      = (c1, respond 201 (BInserted {| acknowledged := true;
                                       insertedId := IdOid (next_pk c) |})) /\
      api_delete req' c1
      = (c2, respond 200 (BDeleted {| deletedCount := 1 |})) /\
      docs c2 = docs c.
Proof.
  intros req data req' data' c Hb Hne Hn Hf Hb' Hv.
  assert (Hk : Nat.eqb (List.length (keys data)) 0 = false)
    by (destruct data; [congruence | reflexivity]).
  assert (V : ObjectId.isValid (String_of (get "id" data')) = true)
    by (apply isValid_new; eexists; exact Hv).
  eexists. eexists. split; [|split].
  - unfold api_add, add, bind, ret.
    rewrite Hb, Hk, (insertOne_generated data c Hn Hf). reflexivity.
  - unfold api_delete. rewrite Hb', (valid_id_is_truthy _ _ Hv).
    unfold remove, new_ObjectId. rewrite V, Hv.
    unfold bind, ret, deleteOne. cbn [negb]. cbv iota beta. simpl docs.
    assert (E : existsb (Id_eqb (IdOid (next_pk c)))
                  (map _id (docs c ++ [{| _id := IdOid (next_pk c);
                                          attrs := del "_id" data |}])) = true).
    { apply has_id_spec.
      exists {| _id := IdOid (next_pk c); attrs := del "_id" data |}.
      split; [apply in_or_app; right; now left | reflexivity]. }
    rewrite E. reflexivity.
  - simpl. rewrite remove_first_split; [apply app_nil_r | reflexivity |].
    intros x Hx E. apply (Hf x _ Hx) in E. now apply N.lt_irrefl in E.
Qed.

Lemma add_then_delete_restores_documents_witness :
  exists c1 c2,
    api_add (Sample.request [] (Some [("name", VStr "Daiquiri")])) Sample.bar
    = (c1, respond 201 (BInserted {| acknowledged := true;
                                     insertedId := IdOid (next_pk Sample.bar) |})) /\
    api_delete (Sample.request [] (Some [("id", VStr "000000000000000000000002")])) c1
    = (c2, respond 200 (BDeleted {| deletedCount := 1 |})) /\
    docs c2 = docs Sample.bar.
Proof.
  apply (add_then_delete_restores_documents
           (Sample.request [] (Some [("name", VStr "Daiquiri")]))
           [("name", VStr "Daiquiri")]
           (Sample.request [] (Some [("id", VStr "000000000000000000000002")]))
           [("id", VStr "000000000000000000000002")]
           Sample.bar).
  - reflexivity.
  - discriminate.
  - now left.
  - intros d o [<-|[<-|[]]] E; injection E as <-; reflexivity.
  - reflexivity.
  - reflexivity.
Defined.

(* ================================================================== *)
(** * Updating twice *)

Lemma set_same :
  forall (k : string) (v : Value) (o : props), get k o = Some v -> set k v o = o.
Proof.
  intros k v o. induction o as [|[k' v'] o IH]; simpl; [discriminate|].
  destruct (String.eqb k' k) eqn:E.
  - apply String.eqb_eq in E. now intros [= ->]; subst.
  - intros H. now rewrite IH.
Qed.

Lemma apply_set_fixed :
  forall upd b,
    (forall k v, In (k, v) upd -> get k b = Some v) -> apply_set upd b = b.
Proof.
  unfold apply_set. induction upd as [|[k v] upd IH]; intros b H; simpl.
  - reflexivity.
  - rewrite set_same by (apply H; now left).
    apply IH. intros k' v' Hin. apply H. now right.
Qed.

Lemma apply_set_idempotent :
  forall upd a,
    NoDup (keys upd) -> apply_set upd (apply_set upd a) = apply_set upd a.
Proof.
  intros upd a ND. apply apply_set_fixed. intros k v Hin.
  rewrite get_apply_set, get_rev_NoDup by assumption.
  apply In_get_NoDup in Hin; [|assumption]. now rewrite Hin.
Qed.

Lemma update_first_idempotent :
  forall id upd ds,
    NoDup (keys upd) ->
    update_first id upd (update_first id upd ds) = update_first id upd ds.
Proof.
  intros id upd ds ND. induction ds as [|d ds IH]; simpl; [reflexivity|].
  destruct (Id_eqb id (_id d)) eqn:E; simpl; rewrite E.
  - now rewrite apply_set_idempotent.
  - now rewrite IH.
Qed.

Lemma edit_settable :
  forall data oid c,
    ObjectId.new (String_of (get "_id" data)) = Some oid ->
    Forall (fun k => settable_name k = true) (keys (del "_id" data)) ->
    edit data c
    = (if existsb (Id_eqb (IdOid oid)) (map _id (docs c))
       then with_docs (update_first (IdOid oid) (del "_id" data) (docs c))
              (called (UpdateOne oid (del "_id" data)) c)
       else called (UpdateOne oid (del "_id" data)) c,
       Ok tt).
Proof.
  intros data oid c Hv Hs.
  rewrite (edit_valid data oid c Hv), (updateOne_settable oid data c Hs).
  now destruct (existsb _ _).
Qed.

(** X10. Updating is idempotent: for a payload that [edit] accepts (each
    key once, its field names being names [$set] takes), the documents
    after the same [edit] twice are the documents after it once. *)
Theorem edit_twice_is_edit_once :
  forall data oid c,
    ObjectId.new (String_of (get "_id" data)) = Some oid ->
    NoDup (keys data) ->
    Forall (fun k => settable_name k = true) (keys (del "_id" data)) ->
    exists c1 c2,
      edit data c = (c1, Ok tt) /\
      edit data c1 = (c2, Ok tt) /\
      docs c2 = docs c1.
Proof.
  intros data oid c Hv ND Hs.
  exists (fst (edit data c)), (fst (edit data (fst (edit data c)))).
  rewrite !(edit_settable data oid _ Hv Hs).
  split; [reflexivity|]. split; [reflexivity|]. cbn [fst].
  destruct (existsb (Id_eqb (IdOid oid)) (map _id (docs c))) eqn:E.
  - simpl docs. rewrite update_first_ids, E. simpl docs.
    apply update_first_idempotent. now apply NoDup_keys_del.
  - simpl docs. rewrite E. reflexivity.
Qed.

Lemma edit_twice_is_edit_once_witness :
  let data := [("_id", VStr Sample.mojito_id); ("taste", VStr "fresh")] in
  exists c1 c2,
    edit data Sample.bar = (c1, Ok tt) /\
    edit data c1 = (c2, Ok tt) /\
    docs c2 = docs c1.
Proof.
  intros data.
  apply (edit_twice_is_edit_once data 1%N Sample.bar).
  - reflexivity.
  - simpl. repeat constructor; simpl; intuition discriminate.
  - repeat constructor.
Defined.

(* ================================================================== *)
(** * Any sequence of requests *)

(** X11. Whatever requests the end points on the collection serve, in
    whatever order, the collection keeps its invariants: no two documents
    have the same identifier, and every ObjectId in it is older than the
    next one the driver generates. *)
Theorem any_requests_keep_consistent :
  forall Number_of_text JSON_parse cursor_window text_search calls c,
    consistent c ->
    consistent (serve_all Number_of_text JSON_parse cursor_window text_search calls c).
Proof.
  intros Number_of_text JSON_parse cursor_window text_search calls.
  induction calls as [|[r req] calls IH]; intros c H; simpl; [exact H|].
  apply IH.
  destruct (end_points_keep_consistent Number_of_text JSON_parse cursor_window
              text_search req c H) as [H1 [H2 [H3 [H4 H5]]]].
  now destruct r.
Qed.

Lemma any_requests_keep_consistent_witness :
  consistent
    (serve_all Sample.Number_of_text Sample.JSON_parse Sample.cursor_window
       Sample.text_search
       [(Add, Sample.request [] (Some [("_id", VStr "mine")]));
        (Add, Sample.request [] (Some [("_id", VStr "mine")]));
        (Add, Sample.request [] (Some [("name", VStr "Daiquiri")]));
        (Delete, Sample.request [] (Some [("id", VStr "000000000000000000000000")]));
        (GetItems, Sample.request [] None)]
       Sample.empty).
Proof.
  apply (any_requests_keep_consistent
           Sample.Number_of_text Sample.JSON_parse Sample.cursor_window
           Sample.text_search).
  split; [constructor | intros d o []].
Defined.

(* ================================================================== *)
(** * Filters whose values are not an array *)






(* ================================================================== *)
(** * The image end points *)

(** X13. [POST /api/upload-image] answers 200 exactly when the request
    has a file and the media host accepts it, with the URL and the public
    id the host returned; every other request is answered 500, never
    400; and the upload always goes to the folder "drinks" as an
    image. *)
Theorem upload_image_outcome :
  forall (Media : Type)
         (upload_end : UploadOptions -> string -> Media -> Media * result UploadResult)
         req m,
    let options := {| resource_type := "image"; folder := "drinks" |} in
    let r := api_upload_image Media upload_end req m in
    (status (snd r) = 200 \/ status (snd r) = 500) /\
    (status (snd r) = 200 <->
     exists f m' result,
       file req = Some f /\
       upload_end options (buffer f) m = (m', Ok result) /\
       r = (m', respond 200 (BImage (secure_url result) (public_id result)))) /\
    (forall f m' err,
        file req = Some f ->
        upload_end options (buffer f) m = (m', Throw err) ->
        r = (m', respond 500 (BFailure "Image upload failed" (message err)))).
Proof.
  intros Media upload_end req m options r. subst r options.
  unfold api_upload_image.
  destruct (file req) as [f|].
  - destruct (upload_end _ (buffer f) m) as [m' [result|err]] eqn:E; simpl.
    + split; [now left|]. split; [|intros f0 m0 err [= <-] H; congruence].
      split; [|reflexivity]. intros _. exists f, m', result.
      repeat split. exact E.
    + split; [now right|]. split.
      * split; [discriminate|]. intros [f0 [m0 [res [[= <-] [H _]]]]].
        congruence.
      * intros f0 m0 err0 [= <-] H. rewrite E in H. now injection H as <- <-.
  - simpl. split; [now right|]. split.
    + split; [discriminate|]. intros [f [m' [res [H _]]]]. discriminate.
    + intros f m' err H. discriminate.
Qed.

(** X14. [POST /api/edit-image] without a body or without a file is
    answered 500 with the message of the error, the media host not being
    reached.  With both, the upload overwrites the asset named by the
    field [public_id] of the body, which is not checked (a missing one is
    passed as [undefined]); the answer is 200 with a fixed message
    whatever the host returned, and 500 with its message when the host
    fails. *)
Theorem edit_image_outcome :
  forall (Media : Type)
         (overwrite_end : OverwriteOptions -> string -> Media -> Media * result UploadResult)
         req m,
    (body req = None \/ file req = None ->
     exists msg,
       api_edit_image Media overwrite_end req m
       = (m, respond 500 (BFailure "Image upload failed" msg)) /\
       forall other_end,
         api_edit_image Media other_end req m
         = api_edit_image Media overwrite_end req m) /\
    (forall data f,
        body req = Some data -> file req = Some f ->
        let options := {| target_public_id := get "public_id" data;
                          target_resource_type := "image";
                          overwrite := true;
                          invalidate := true |} in
        api_edit_image Media overwrite_end req m
        = match overwrite_end options (buffer f) m with
          | (m', Ok _) => (m', respond 200 (BMessage "Image updated successfully"))
          | (m', Throw err) =>
              (m', respond 500 (BFailure "Image upload failed" (message err)))
          end).
Proof.
  intros Media overwrite_end req m. split.
  - unfold api_edit_image. intros [H|H]; rewrite H.
    + eexists. split; reflexivity.
    + destruct (body req); eexists; split; reflexivity.
  - intros data f Hb Hf options. unfold api_edit_image. now rewrite Hb, Hf.
Qed.

Lemma edit_image_outcome_witness :
  exists msg,
    api_edit_image SampleHost.Media SampleHost.overwrite_end
      (Sample.request [] (Some [("public_id", VStr "drinks/1")])) []
    = ([], respond 500 (BFailure "Image upload failed" msg)) /\
    forall other_end,
      api_edit_image SampleHost.Media other_end
        (Sample.request [] (Some [("public_id", VStr "drinks/1")])) []
      = api_edit_image SampleHost.Media SampleHost.overwrite_end
          (Sample.request [] (Some [("public_id", VStr "drinks/1")])) [].
Proof.
  apply (proj1 (edit_image_outcome SampleHost.Media SampleHost.overwrite_end
                  (Sample.request [] (Some [("public_id", VStr "drinks/1")])) [])).
  now right.
Defined.

(** X15. [DELETE /api/delete-image] reaches the media host only with a
    truthy [public_id]: a body without [public_id], or with a falsy one,
    is answered 400, and a request without a body is answered 500 (the
    body is destructured before the check), the host being left as it
    was; otherwise the host's [destroy] is called with that [public_id]
    and its result is the answer, with 200, or 500 when it fails. *)
Theorem delete_image_outcome :
  forall (Media : Type) (destroy : Value -> Media -> Media * result Value) req m,
    (body req = None ->
     api_delete_image Media destroy req m
     = (m, {| media_status := 500;
              media_json := MBody (BError "Internal server error") |})) /\
    (forall data,
        body req = Some data -> truthy (get "public_id" data) = false ->
        api_delete_image Media destroy req m
        = (m, {| media_status := 400;
                 media_json := MBody (BError "Missing public_id in body") |})) /\
    (forall data v,
        body req = Some data -> get "public_id" data = Some v ->
        truthy (Some v) = true ->
        api_delete_image Media destroy req m
        = match destroy v m with
          | (m', Ok result) =>
              (m', {| media_status := 200; media_json := MResult result |})
          | (m', Throw _) =>
              (m', {| media_status := 500;
                      media_json := MBody (BError "Internal server error") |})
          end).
Proof.
  intros Media destroy req m. unfold api_delete_image.
  refine (conj _ (conj _ _)).
  - now intros ->.
  - intros data -> T. destruct (get "public_id" data); [|reflexivity].
    now rewrite T.
  - intros data v -> -> T. now rewrite T.
Qed.

Lemma delete_image_outcome_witness :
  api_delete_image SampleHost.Media SampleHost.destroy
    (Sample.request [] (Some [("public_id", VStr "drinks/1")])) ["drinks/1"; "drinks/2"]
  = (["drinks/2"],
     {| media_status := 200;
        media_json := MResult (VObj [("result", VStr "ok")]) |}).
Proof.
  apply (proj2 (proj2 (delete_image_outcome SampleHost.Media SampleHost.destroy
                         (Sample.request [] (Some [("public_id", VStr "drinks/1")]))
                         ["drinks/1"; "drinks/2"]))
           [("public_id", VStr "drinks/1")] (VStr "drinks/1"));
    reflexivity.
Defined.

(* ================================================================== *)
(** * Shutting down *)

(** X16. [shutdown] ends the process with the code it was given, once,
    as its last effect, whether the closes resolve or reject; the code is
    0 on SIGINT and SIGTERM and 1 on an uncaught exception or an
    unhandled rejection.  The process does not exit when a close it
    awaits never settles. *)
Theorem shutdown_exits_with_its_code :
  forall s p,
    let hangs :=
      if server_set p
      then pends (server_close p) || (resolves (server_close p) && pends (client_close p))
      else pends (client_close p) in
    exit_codes (on s p) = (if hangs then [] else [code_of s]) /\
    (hangs = false -> last (on s p) (Console "") = Exit (code_of s)) /\
    exit_codes (shutdown None p) = (if hangs then [] else [0]).
Proof.
  intros s [srv conn sc cc].
  destruct s, srv, sc, cc, conn as [[|]|]; simpl; repeat split; discriminate.
Qed.

(** X17. [shutdown] closes the database client once, unless closing the
    server rejected or never settled: then the client is not closed at
    all.  When the server is set, closing it comes first, before any
    close of the client, and it is closed once. *)
Theorem shutdown_closes_client_after_server :
  forall code p,
    client_closes (shutdown code p)
    = (if server_set p && negb (resolves (server_close p)) then 0 else 1) /\
    (server_set p = true ->
     exists rest,
       shutdown code p = Console "Shutting down..." :: CloseServer :: rest /\
       ~ In CloseServer rest) /\
    (server_set p = false -> ~ In CloseServer (shutdown code p)).
Proof.
  intros code [srv conn sc cc]. refine (conj _ (conj _ _)).
  - destruct srv, sc, cc, conn as [[|]|]; reflexivity.
  - simpl. intros ->. eexists. split; [reflexivity|].
    destruct sc, cc, conn as [[|]|]; simpl; intuition discriminate.
  - simpl. intros ->.
    destruct cc, conn as [[|]|]; simpl; intuition discriminate.
Qed.

Lemma shutdown_closes_client_after_server_witness :
  let p := {| server_set := true; isConnected := None;
              server_close := Resolves; client_close := Rejects (Error "closed") |} in
  exists rest,
    shutdown (Some 1) p = Console "Shutting down..." :: CloseServer :: rest /\
    ~ In CloseServer rest.
Proof.
  intros p.
  apply (proj1 (proj2 (shutdown_closes_client_after_server (Some 1) p))).
  reflexivity.
Defined.

(* ================================================================== *)
(** * Filtering on the identifier *)

(** X18. The values of a filter are sent as they are, never as
    ObjectIds: when the list of filters ends up with a filter on [_id],
    [getItems] returns no document stored under a generated ObjectId;
    the items it returns are stored under an identifier their client
    chose, which is among the values of the filter. *)
Theorem filter_on_id_finds_no_generated_identifier :
  forall JSON_parse cursor_window,
    (forall s l ds r, cursor_window s l ds = Some r -> incl r ds) ->
  forall pagination limit text filtersObject values fs vals c c' page,
    text <> "" ->
    JSON_parse text = Some filtersObject ->
    Object_values filtersObject = Some values ->
    Forall2 describes values fs ->
    last_named "_id" fs = Some vals ->
    getItems JSON_parse cursor_window pagination limit (Some text) c = (c', Ok page) ->
    forall d,
      In d (items page) ->
      (forall o, _id d <> IdOid o) /\
      exists v, _id d = IdVal v /\ permitted vals (Some v).
Proof.
  intros JSON_parse cursor_window Hw pagination limit text filtersObject
         values fs vals c c' page Ht Hp Hv Hd Hl H d Hin.
  destruct (getItems_filtered JSON_parse cursor_window _ _ _ _ _ _ _ _ _
              Ht Hp Hv Hd H) as [matched [W M]].
  apply (Hw _ _ _ _ W) in Hin. apply M in Hin as [_ Hs].
  specialize (Hs "_id" vals ltac:(discriminate) Hl). unfold satisfies in Hs. simpl in Hs.
  destruct Hs as [v [E Hperm]]. split.
  - intros o. rewrite E. discriminate.
  - now exists v.
Qed.

Lemma filter_on_id_finds_no_generated_identifier_witness :
  (forall o, _id SampleFilter.daiquiri <> IdOid o) /\
  exists v, _id SampleFilter.daiquiri = IdVal v /\ permitted [VStr "mine"] (Some v).
Proof.
  apply (filter_on_id_finds_no_generated_identifier
           SampleFilter.JSON_parse Sample.cursor_window sample_cursor_window_incl
           (Num 0) (Some (Num 10)) SampleFilter.id_text
           (VArr [Sample.filter_of "_id" [VStr "mine"]])
           [Sample.filter_of "_id" [VStr "mine"]]
           [("_id", [VStr "mine"])] [VStr "mine"]
           SampleFilter.bar
           (called (Find [("_id", Some (VArr [VStr "mine"]))] (Num 0) (Num 10))
                   SampleFilter.bar)
           {| items := [SampleFilter.daiquiri]; isEndOfCollection := true |}).
  - discriminate.
  - reflexivity.
  - reflexivity.
  - repeat constructor.
  - reflexivity.
  - reflexivity.
  - now left.
Defined.

(* ================================================================== *)
(** * Limits below zero *)

Lemma negative_limit_kept :
  forall l cap x,
    (0 <= cap)%Z ->
    l = NegInfinity \/ (l = Num x /\ (x < 0)%Q) ->
    forall n,
      ~ fewer_than n (Math_min (number_or l (Num 10)) (Num (inject_Z cap))).
Proof.
  intros l cap x Hcap [-> | [-> Hx]] n; simpl; [tauto|].
  unfold number_or, number_truthy.
  assert (E0 : Qeq_bool x 0 = false).
  { destruct (Qeq_bool x 0) eqn:E; [|reflexivity].
    apply Qeq_bool_iff in E. rewrite E in Hx. now apply Qlt_irrefl in Hx. }
  assert (Ec : Qle_bool x (inject_Z cap) = true).
  { apply Qle_bool_iff. apply Qlt_le_weak. apply Qlt_le_trans with 0%Q; [exact Hx|].
    change 0%Q with (inject_Z 0). now rewrite <- Zle_Qle. }
  rewrite E0. simpl. rewrite Ec. simpl.
  apply Qle_not_lt. apply Qlt_le_weak. apply Qlt_le_trans with 0%Q; [exact Hx|].
  change 0%Q with (inject_Z 0). rewrite <- Zle_Qle. apply Nat2Z.is_nonneg.
Qed.

(** X19. A limit below zero is not replaced by the default: it is passed
    on as it is, and the page that [GET /api/get-items] or
    [GET /api/search] then answers never reports the end of the
    collection, however few items it holds. *)
Theorem negative_limit_never_ends :
  forall Number_of_text JSON_parse cursor_window text_search req c c' page x,
    let l := Number Number_of_text (get "limit" (query req)) in
    l = NegInfinity \/ (l = Num x /\ (x < 0)%Q) ->
    api_get_items Number_of_text JSON_parse cursor_window req c
    = (c', respond 200 (BPage page)) \/
    api_search Number_of_text cursor_window text_search req c
    = (c', respond 200 (BPage page)) ->
    isEndOfCollection page = false.
Proof.
  intros Number_of_text JSON_parse cursor_window text_search req c c' page x l Hl H.
  destruct (isEndOfCollection page) eqn:E; [|reflexivity]. exfalso.
  destruct H as [H|H].
  - apply api_get_items_flag in H. rewrite E in H.
    apply (negative_limit_kept l 100 x ltac:(discriminate) Hl (List.length (items page))).
    now apply H.
  - apply api_search_flag in H. rewrite E in H.
    apply (negative_limit_kept l 20 x ltac:(discriminate) Hl (List.length (items page))).
    now apply H.
Qed.

Lemma negative_limit_never_ends_witness :
  let page := {| items := [Sample.margarita]; isEndOfCollection := false |} in
  api_get_items SampleSigned.Number_of_text Sample.JSON_parse
    SampleSigned.cursor_window (Sample.request [("limit", "-1")] None) Sample.bar
  = (called (Find [] (Num 0) (Num (-1))) Sample.bar, respond 200 (BPage page)) /\
  isEndOfCollection page = false.
Proof.
  intros page. split; [reflexivity|].
  apply (negative_limit_never_ends
           SampleSigned.Number_of_text Sample.JSON_parse SampleSigned.cursor_window
           Sample.text_search (Sample.request [("limit", "-1")] None) Sample.bar
           (called (Find [] (Num 0) (Num (-1))) Sample.bar) page (-1)%Q).
  - right. split; [reflexivity | reflexivity].
  - left. reflexivity.
Defined.

(* ================================================================== *)
(** * Filters named [__proto__] *)

Lemma prepareFilters_proto :
  forall fs acc,
    Forall (fun f => f <> VNull /\ filter_key f = "__proto__") fs ->
    prepareFilters fs acc = Ok acc.
Proof.
  induction fs as [|f fs IH]; intros acc H; [reflexivity|].
  inversion H as [|f' fs' [Hn Hk] Hfs]; subst. cbn [prepareFilters].
  unfold filter_key in Hk.
  destruct (property "filterName" f) as [n|] eqn:P;
    [|destruct f; try discriminate P; congruence].
  assert (V : exists v, property "filterValues" f = Some v)
    by (destruct f; try (eexists; reflexivity); congruence).
  destruct V as [v ->]. unfold assign. rewrite Hk, String.eqb_refl.
  now apply IH.
Qed.

(** X20. Filters named [__proto__] restrict nothing: the assignment of
    that name gives the query no condition, so [GET /api/get-items] with
    filters that all have this name answers what it answers to the same
    request without filters, with the same call on the collection. *)
Theorem proto_filters_restrict_nothing :
  forall Number_of_text JSON_parse cursor_window req c text v fs,
    get "filters" (query req) = Some text ->
    JSON_parse text = Some v ->
    Object_values v = Some fs ->
    Forall (fun f => f <> VNull /\ filter_key f = "__proto__") fs ->
    api_get_items Number_of_text JSON_parse cursor_window req c
    = api_get_items Number_of_text JSON_parse cursor_window
        {| query := del "filters" (query req); body := body req; file := file req |}
        c.
Proof.
  intros Number_of_text JSON_parse cursor_window req c text v fs Hf Hp Hv H.
  unfold api_get_items. cbn [query].
  rewrite !get_del_other by discriminate. rewrite get_del_same, Hf.
  unfold getItems, bind, lift, parseFilters.
  destruct (String.eqb text ""); [reflexivity|].
  now rewrite Hp, Hv, (prepareFilters_proto fs [] H).
Qed.

Lemma proto_filters_restrict_nothing_witness :
  let page := {| items := [Sample.margarita; Sample.mojito];
                 isEndOfCollection := true |} in
  let req := Sample.request [("filters", SampleProto.alone_text)] None in
  api_get_items Sample.Number_of_text SampleProto.JSON_parse Sample.cursor_window
    req Sample.bar
  = (called (Find [] (Num 0) (Num 10)) Sample.bar, respond 200 (BPage page)) /\
  api_get_items Sample.Number_of_text SampleProto.JSON_parse Sample.cursor_window
    req Sample.bar
  = api_get_items Sample.Number_of_text SampleProto.JSON_parse Sample.cursor_window
      (Sample.request [] None) Sample.bar.
Proof.
  intros page req. split; [reflexivity|].
  apply (proto_filters_restrict_nothing
           Sample.Number_of_text SampleProto.JSON_parse Sample.cursor_window
           req Sample.bar SampleProto.alone_text
           (VArr [Sample.filter_of "__proto__" [VStr "sweet"]])
           [Sample.filter_of "__proto__" [VStr "sweet"]]).
  - reflexivity.
  - reflexivity.
  - reflexivity.
  - repeat constructor. discriminate.
Defined.

(* ================================================================== *)
(** * Field names that [$set] refuses *)

(** X21. [edit] passes the field names of the payload to [$set] as they
    are: a payload with a valid identifier and a field name that is not
    an update path (the empty name, a name with an empty part between
    dots, a positional operator first) makes [updateOne] fail, and
    [PUT /api/edit] answers 500 after that one call, with the documents
    as they were. *)
Theorem refused_field_name_is_500 :
  forall req data oid c k,
    body req = Some data ->
    ObjectId.new (String_of (get "_id" data)) = Some oid ->
    In k (keys data) ->
    refused_path k = true ->
    api_edit req c
    = (called (UpdateOne oid (del "_id" data)) c, respond 500 (BError "Server error")).
Proof.
  intros req data oid c k Hb Hv Hk Hr.
  assert (E : existsb refused_path (keys (del "_id" data)) = true).
  { apply existsb_exists. exists k. split; [|exact Hr].
    rewrite keys_del. apply filter_In. split; [exact Hk|].
    destruct (String.eqb k "_id") eqn:Ek; [|reflexivity].
    apply String.eqb_eq in Ek. subst k. discriminate Hr. }
  unfold api_edit. rewrite Hb, (valid_id_is_truthy _ _ Hv).
  cbn [negb]. cbv iota beta.
  rewrite (edit_valid data oid c Hv). unfold updateOne. rewrite E.
  reflexivity.
Qed.

Lemma refused_field_name_is_500_witness :
  let data := [("_id", VStr Sample.mojito_id); ("", VStr "fresh")] in
  api_edit (Sample.request [] (Some data)) Sample.bar
  = (called (UpdateOne 1%N [("", VStr "fresh")]) Sample.bar,
     respond 500 (BError "Server error")).
Proof.
  intros data.
  apply (refused_field_name_is_500
           (Sample.request [] (Some data)) data 1%N Sample.bar "").
  - reflexivity.
  - reflexivity.
  - right. now left.
  - reflexivity.
Defined.

(* ================================================================== *)
(** * The maximum of an end point and a limit below zero *)

Lemma effective_limit_negative :
  forall x cap,
    (x < 0)%Q -> (0 <= cap)%Q ->
    Math_min (number_or (Num x) (Num 10)) (Num cap) = Num x.
Proof.
  intros x cap Hx Hc. apply effective_limit_in_range.
  - intros E. rewrite E in Hx. now apply (Qlt_irrefl 0).
  - apply Qlt_le_weak. now apply Qlt_le_trans with 0%Q.
Qed.

(** C9. The maximum of an end point does not hold for a limit below
    zero: [Math.min] leaves a negative number as it is, so for a query
    whose [limit] is the number [x < 0] the call of [GET /api/search]
    (with a search text) and the call of [GET /api/get-items] (without
    filters) on the collection carry the limit [x] itself, however far
    below zero.  The driver asks the server for the absolute value of
    such a limit: with the limit -30 the search end point, whose maximum
    is 20, answers with 30 items. *)
Theorem negative_limit_passes_the_cap :
  forall Number_of_text JSON_parse cursor_window text_search req c x,
    Number Number_of_text (get "limit" (query req)) = Num x ->
    (x < 0)%Q ->
    (forall s,
        get "search" (query req) = Some s -> s <> "" ->
        exists p,
          oplog (fst (api_search Number_of_text cursor_window text_search req c))
          = FindText s p (Num x) :: oplog c) /\
    (get "filters" (query req) = None ->
     exists p,
       oplog (fst (api_get_items Number_of_text JSON_parse cursor_window req c))
       = Find [] p (Num x) :: oplog c).
Proof.
  intros Number_of_text JSON_parse cursor_window text_search req c x E Hx. split.
  - intros s Hs Hne. unfold api_search. rewrite Hs, E.
    apply String.eqb_neq in Hne. rewrite Hne.
    rewrite (effective_limit_negative x 20 Hx) by discriminate.
    match goal with
    | |- context [getItemsByName _ _ ?p ?l s c] =>
        exists p;
        pose proof (getItemsByName_oplog cursor_window text_search p l s c) as H;
        destruct (getItemsByName cursor_window text_search p l s c) as [c1 [page|e]]
    end; exact H.
  - intros Hf. unfold api_get_items. rewrite Hf, E.
    rewrite (effective_limit_negative x 100 Hx) by discriminate.
    match goal with
    | |- context [getItems _ _ ?p ?l None c] =>
        exists p;
        assert (H : oplog (fst (getItems JSON_parse cursor_window p l None c))
                    = Find [] p (Num x) :: oplog c)
          by (unfold getItems, bind, lift, ret, parseFilters, find; simpl;
              now destruct (cursor_window _ _ _));
        destruct (getItems JSON_parse cursor_window p l None c) as [c1 [page|e]]
    end; exact H.
Qed.

Lemma negative_limit_passes_the_cap_witness :
  let req := Sample.request [("search", "Mojito"); ("limit", "-30")] None in
  let r := api_search SampleSigned.Number_of_text SampleSigned.cursor_window
             Sample.text_search req SampleSigned.crowd in
  (exists p,
      oplog (fst r) = FindText "Mojito" p (Num (-30)) :: oplog SampleSigned.crowd) /\
  r = (called (FindText "Mojito" (Num 0) (Num (-30))) SampleSigned.crowd,
       respond 200 (BPage {| items := docs SampleSigned.crowd;
                             isEndOfCollection := false |})) /\
  List.length (docs SampleSigned.crowd) = 30.
Proof.
  intros req r. split; [|split; reflexivity].
  apply (proj1 (negative_limit_passes_the_cap
                  SampleSigned.Number_of_text Sample.JSON_parse
                  SampleSigned.cursor_window Sample.text_search req
                  SampleSigned.crowd (-30)%Q eq_refl eq_refl)
           "Mojito" eq_refl).
  discriminate.
Defined.
